(** * Visual Product Matcher front end: model and verified properties

    A shallow embedding of the browser-side code of the repository:
    - [services/api.ts]: the HTTP client ([apiRequest], [buildSearchForm],
      [uploadAndSearch], [getProduct], [withAbort]);
    - [components/FilterPanel.tsx]: the filter state and its handlers;
    - [components/ImageUpload.tsx]: preview object URLs and their release;
    - [App.tsx]: toasts, [uid], [toApiFilters] and the search handler.

    The first module, [JS], models the parts of the platform the code calls
    (numbers, [Number], [Math.min], JSON values, [encodeURIComponent], ...).
    All definitions come first; the lemmas and theorems follow. *)

From Stdlib Require Import ZArith QArith Qminmax Ascii String.
From stdpp Require Import base numbers list strings pretty gmap.

Local Open Scope Z_scope.

(* ================================================================== *)
(** * The platform: the JavaScript values and built-ins the code uses  *)
(* ================================================================== *)

Module JS.

(** ** Numbers

    The code never does arithmetic on numbers: it reads them from text
    ([Number]), compares them ([Math.min], [Math.max]) and passes them on.
    A finite number is therefore kept as the exact rational its literal
    denotes; rounding to binary64 and the sign of zero are not represented. *)
Inductive number : Type :=
  | Fin (q : Q)
  | Inf (negative : bool)
  | NaN.

Definition is_NaN (x : number) : bool :=
  match x with NaN => true | _ => false end.

(** [x <= y] of the language: false as soon as one side is [NaN]. *)
Definition num_le (x y : number) : bool :=
  match x, y with
  | NaN, _ | _, NaN => false
  | Inf true, _ => true
  | _, Inf false => true
  | Inf false, _ => false
  | _, Inf true => false
  | Fin a, Fin b => Qle_bool a b
  end.

(** [Math.min(x, y)] and [Math.max(x, y)]: [NaN] is contagious. *)
Definition Math_min (x y : number) : number :=
  match x, y with
  | NaN, _ | _, NaN => NaN
  | _, _ => if num_le x y then x else y
  end.

Definition Math_max (x y : number) : number :=
  match x, y with
  | NaN, _ | _, NaN => NaN
  | _, _ => if num_le x y then y else x
  end.

(** ** Reading a number from text: [Number(string)]

    StringToNumber of the language standard over byte strings: ASCII white
    space is trimmed, the empty string is [0], then come the non-decimal
    integer literals ([0x], [0o], [0b]), [Infinity] and signed decimal
    literals; anything else is [NaN]. *)
Definition code (c : ascii) : N := N_of_ascii c.

Definition is_space (c : ascii) : bool :=
  let n := code c in
  ((9 <=? n) && (n <=? 13) || (n =? 32))%N.

Definition is_digit (c : ascii) : bool :=
  let n := code c in ((48 <=? n) && (n <=? 57))%N.

Definition digit_value (c : ascii) : N := (code c - 48)%N.

Fixpoint drop_spaces (cs : list ascii) : list ascii :=
  match cs with
  | c :: r => if is_space c then drop_spaces r else cs
  | [] => []
  end.

Definition trim (cs : list ascii) : list ascii :=
  rev (drop_spaces (rev (drop_spaces cs))).

Fixpoint span_digits (cs : list ascii) : list ascii * list ascii :=
  match cs with
  | c :: r =>
      if is_digit c
      then let '(ds, rest) := span_digits r in (c :: ds, rest)
      else ([], cs)
  | [] => ([], [])
  end.

Definition digits_value (ds : list ascii) : N :=
  fold_left (fun acc c => 10 * acc + digit_value c)%N ds 0%N.

(** The shape of a decimal literal: an optional sign, digits, an optional
    dot with digits, an optional exponent mark with its sign and digits.
    A sign is [Some true] for [-] and [Some false] for [+]. *)
Record DecLit : Type := mkDecLit {
  lit_sign : option bool;
  lit_int : list ascii;
  lit_frac : option (list ascii);
  lit_exp : option (option bool * list ascii)
}.

Definition scan_sign (cs : list ascii) : option bool * list ascii :=
  match cs with
  | c :: r =>
      if (code c =? 45)%N then (Some true, r)
      else if (code c =? 43)%N then (Some false, r)
      else (None, cs)
  | [] => (None, [])
  end.

Definition scan_frac (cs : list ascii) : option (list ascii) * list ascii :=
  match cs with
  | c :: r =>
      if (code c =? 46)%N
      then let '(ds, rest) := span_digits r in (Some ds, rest)
      else (None, cs)
  | [] => (None, [])
  end.

Definition scan_exp (cs : list ascii)
  : option (option bool * list ascii) * list ascii :=
  match cs with
  | c :: r =>
      if ((code c =? 101) || (code c =? 69))%N
      then let '(sg, r1) := scan_sign r in
           let '(ds, rest) := span_digits r1 in (Some (sg, ds), rest)
      else (None, cs)
  | [] => (None, [])
  end.

(** Splits a text into the longest decimal-literal shape and what is left. *)
Definition scan_decimal (cs : list ascii) : DecLit * list ascii :=
  let '(sg, r0) := scan_sign cs in
  let '(ip, r1) := span_digits r0 in
  let '(fp, r2) := scan_frac r1 in
  let '(ep, r3) := scan_exp r2 in
  (mkDecLit sg ip fp ep, r3).

Definition nonempty {A} (l : list A) : bool :=
  match l with [] => false | _ => true end.

Definition exp_ok (ep : option (option bool * list ascii)) : bool :=
  match ep with Some (_, ds) => nonempty ds | None => true end.

(** StrDecimalLiteral: [digits . digits? exp?], [. digits exp?] or
    [digits exp?], with an optional [+] or [-] in front. *)
Definition js_decimal_ok (l : DecLit) : bool :=
  (nonempty (lit_int l)
   || match lit_frac l with Some ds => nonempty ds | None => false end)
  && exp_ok (lit_exp l).

Definition pow10 (e : Z) : Q := Qpower (inject_Z 10) e.

Definition signed (sg : option bool) (z : Z) : Z :=
  match sg with Some true => - z | _ => z end.

Definition declit_value (l : DecLit) : Q :=
  let fd := default [] (lit_frac l) in
  let mant := Z.of_N (digits_value (lit_int l ++ fd)) in
  let e := match lit_exp l with
           | Some (sg, ds) => signed sg (Z.of_N (digits_value ds))
           | None => 0
           end in
  (inject_Z (signed (lit_sign l) mant) * pow10 (e - Z.of_nat (length fd)))%Q.

(** Non-decimal integer literals: [0x..], [0o..], [0b..] (either case),
    with at least one digit of the radix and no sign. *)
Definition radix_digit (radix : N) (c : ascii) : option N :=
  let n := code c in
  let v := if is_digit c then Some (n - 48)%N
           else if ((97 <=? n) && (n <=? 102))%N then Some (n - 87)%N
           else if ((65 <=? n) && (n <=? 70))%N then Some (n - 55)%N
           else None in
  match v with
  | Some d => if (d <? radix)%N then Some d else None
  | None => None
  end.

Fixpoint radix_value (radix : N) (acc : N) (cs : list ascii) : option N :=
  match cs with
  | [] => Some acc
  | c :: r =>
      match radix_digit radix c with
      | Some d => radix_value radix (radix * acc + d)%N r
      | None => None
      end
  end.

Definition parse_nondecimal (cs : list ascii) : option N :=
  match cs with
  | z :: p :: ((_ :: _) as ds) =>
      if (code z =? 48)%N then
        let n := code p in
        if ((n =? 120) || (n =? 88))%N then radix_value 16 0 ds
        else if ((n =? 111) || (n =? 79))%N then radix_value 8 0 ds
        else if ((n =? 98) || (n =? 66))%N then radix_value 2 0 ds
        else None
      else None
  | _ => None
  end.

Definition parse_infinity (cs : list ascii) : option bool :=
  let '(sg, r) := scan_sign cs in
  if decide (r = list_ascii_of_string "Infinity")
  then Some (match sg with Some true => true | _ => false end)
  else None.

Definition StringToNumber (s : string) : number :=
  let cs := trim (list_ascii_of_string s) in
  match cs with
  | [] => Fin 0
  | _ =>
      match parse_nondecimal cs with
      | Some n => Fin (inject_Z (Z.of_N n))
      | None =>
          match parse_infinity cs with
          | Some neg => Inf neg
          | None =>
              let '(l, rest) := scan_decimal cs in
              if negb (nonempty rest) && js_decimal_ok l
              then Fin (declit_value l)
              else NaN
          end
      end
  end.

(** ** The value of an [<input type="number">]

    The value sanitization of the markup standard: a text that is not a
    valid floating-point number is replaced by the empty string.  A valid
    floating-point number is an optional [-], then digits, or digits with a
    dot and digits, or a dot and digits, then optionally [e] or [E], an
    optional sign and digits. *)
Definition html_float_ok (l : DecLit) : bool :=
  match lit_sign l with Some false => false | _ => true end
  && (nonempty (lit_int l)
      || match lit_frac l with Some _ => true | None => false end)
  && match lit_frac l with Some ds => nonempty ds | None => true end
  && exp_ok (lit_exp l).

Definition valid_floating_point_number (s : string) : bool :=
  let '(l, rest) := scan_decimal (list_ascii_of_string s) in
  negb (nonempty rest) && html_float_ok l.

Definition number_input_value (typed : string) : string :=
  if valid_floating_point_number typed then typed else "".

(** The characters a decimal literal is made of. *)
Definition is_lit_char (c : ascii) : bool :=
  let n := code c in
  (is_digit c || (n =? 45) || (n =? 43) || (n =? 46) || (n =? 101)
   || (n =? 69))%N.

(** A scanner took [pre] off the front of [cs], leaving [rest], and [pre]
    is made of characters of decimal literals. *)
Definition consumed (cs pre rest : list ascii) : Prop :=
  cs = pre ++ rest ∧ Forall (λ c, is_lit_char c = true) pre.

(** ** Strings *)

(** [s.slice(a, b)] for [0 <= a <= b]. *)
Definition slice (a b : nat) (s : string) : string :=
  String.substring a (b - a) s.

(** [xs.includes(x)] on an array of strings. *)
Definition includes (x : string) (xs : list string) : bool :=
  bool_decide (x ∈ xs).

(** ** Values

    The values that cross the code's interfaces: what [res.json()] yields,
    and the objects handed to [JSON.stringify].  An object is the list of
    its own enumerable properties in insertion order, under pairwise
    distinct keys; a property may hold [undefined]. *)
#[local] Unset Elimination Schemes.
Inductive value : Type :=
  | Undefined
  | Null
  | Bool (b : bool)
  | Num (n : number)
  | Str (s : string)
  | Arr (elems : list value)
  | Obj (props : list (string * value)).
#[local] Set Elimination Schemes.

Abbreviation object := (list (string * value)).

(** [Object.keys(o)] *)
Definition Object_keys (o : object) : list string := map fst o.

Fixpoint lookup_prop (k : string) (o : object) : value :=
  match o with
  | [] => Undefined
  | (k', v) :: r => if decide (k' = k) then v else lookup_prop k r
  end.

(** [v?.k] for a property name that only the value's own properties can
    supply (such as [message], [detail]): [undefined] on [null],
    [undefined], primitives and arrays. *)
Definition opt_get (v : value) (k : string) : value :=
  match v with
  | Obj o => lookup_prop k o
  | _ => Undefined
  end.

Definition truthy (v : value) : bool :=
  match v with
  | Undefined | Null => false
  | Bool b => b
  | Num (Fin q) => negb (Qeq_bool q 0)
  | Num (Inf _) => true
  | Num NaN => false
  | Str s => negb (bool_decide (s = ""))
  | Arr _ | Obj _ => true
  end.

(** [a || b] *)
Definition or_else (a b : value) : value := if truthy a then a else b.

(** [s || t] on strings. *)
Definition str_or (s t : string) : string := if decide (s = "") then t else s.

Definition dquote : ascii := ascii_of_N 34.
Definition backslash : ascii := ascii_of_N 92.

Definition hex_lower (n : N) : ascii :=
  ascii_of_N (if (n <? 10)%N then 48 + n else 87 + n)%N.

Definition hex_upper (n : N) : ascii :=
  ascii_of_N (if (n <? 10)%N then 48 + n else 55 + n)%N.

(** QuoteJSONString, on byte strings. *)
Definition json_escape (c : ascii) : string :=
  let n := code c in
  if (n =? 34)%N then String backslash (String dquote "")
  else if (n =? 92)%N then String backslash (String backslash "")
  else if (n =? 8)%N then String backslash "b"
  else if (n =? 9)%N then String backslash "t"
  else if (n =? 10)%N then String backslash "n"
  else if (n =? 12)%N then String backslash "f"
  else if (n =? 13)%N then String backslash "r"
  else if (n <? 32)%N
       then String backslash
              ("u00" +:+ String (hex_lower (n / 16)) (String (hex_lower (n mod 16)) ""))
  else String c "".

Fixpoint json_escape_all (s : string) : string :=
  match s with
  | EmptyString => ""
  | String c r => json_escape c +:+ json_escape_all r
  end.

Definition json_quote (s : string) : string :=
  String dquote (json_escape_all s +:+ String dquote "").

Section Printing.
(** [Number.prototype.toString] in radix 10 is left to the platform. *)
Variable Number_toString : number → string.

(** [String(v)], as [new Error(v)] applies it to its argument. *)
Fixpoint ToString (v : value) : string :=
  match v with
  | Undefined => "undefined"
  | Null => "null"
  | Bool b => if b then "true" else "false"
  | Num n => Number_toString n
  | Str s => s
  | Arr l =>
      String.concat ","
        (map (λ e, match e with
                   | Undefined | Null => ""
                   | _ => ToString e
                   end) l)
  | Obj _ => "[object Object]"
  end.

(** [JSON.stringify(v)]; [None] stands for the result [undefined].
    Properties holding [undefined] are left out of objects, [undefined]
    in an array is written [null], and so are [NaN] and the infinities. *)
Fixpoint JSON_stringify (v : value) : option string :=
  match v with
  | Undefined => None
  | Null => Some "null"
  | Bool b => Some (if b then "true" else "false")
  | Num (Fin q) => Some (Number_toString (Fin q))
  | Num _ => Some "null"
  | Str s => Some (json_quote s)
  | Arr l =>
      Some ("[" +:+ String.concat ","
                      (map (λ e, default "null" (JSON_stringify e)) l)
                +:+ "]")
  | Obj o =>
      let fix members (ps : list (string * value)) : list string :=
        match ps with
        | [] => []
        | (k, x) :: r =>
            match JSON_stringify x with
            | Some t => (json_quote k +:+ ":" +:+ t) :: members r
            | None => members r
            end
        end in
      Some ("{" +:+ String.concat "," (members o) +:+ "}")
  end.
End Printing.

(** What [JSON.stringify] writes for a number: [null] unless it is finite. *)
Definition JSON_number (Number_toString : number → string) (n : number)
  : string :=
  match n with Fin q => Number_toString (Fin q) | _ => "null" end.

(** What [JSON.stringify] writes for one property of an object: [key:text],
    or nothing when the value has no JSON text. *)
Definition JSON_member (Number_toString : number → string)
    (kv : string * value) : option string :=
  (λ t, json_quote (fst kv) +:+ ":" +:+ t)
  <$> JSON_stringify Number_toString (snd kv).

(** ** [encodeURIComponent]

    On a string given by its UTF-16 code units.  A code unit of the unescaped
    set (letters, digits and [-_.!~*'()]) is kept; any other code point is
    written as the percent-escapes of its UTF-8 bytes, in upper-case
    hexadecimal.  An unpaired surrogate raises [URIError] ([None]). *)
Definition is_alnum (u : N) : bool :=
  ((48 <=? u) && (u <=? 57) || (65 <=? u) && (u <=? 90)
   || (97 <=? u) && (u <=? 122))%N.

Definition is_unescaped (u : N) : bool :=
  is_alnum u
  || bool_decide (u ∈ [45; 95; 46; 33; 126; 42; 39; 40; 41]%N).

Definition is_high_surrogate (u : N) : bool := ((55296 <=? u) && (u <=? 56319))%N.
Definition is_low_surrogate (u : N) : bool := ((56320 <=? u) && (u <=? 57343))%N.

Definition utf8 (cp : N) : list N :=
  (if cp <? 128 then [cp]
   else if cp <? 2048 then [192 + cp / 64; 128 + cp mod 64]
   else if cp <? 65536
        then [224 + cp / 4096; 128 + (cp / 64) mod 64; 128 + cp mod 64]
   else [240 + cp / 262144; 128 + (cp / 4096) mod 64;
         128 + (cp / 64) mod 64; 128 + cp mod 64])%N.

Definition percent (b : N) : string :=
  String "%" (String (hex_upper (b / 16)) (String (hex_upper (b mod 16)) "")).

Definition percent_all (bs : list N) : string :=
  foldr (λ b acc, percent b +:+ acc) "" bs.

Fixpoint encodeURIComponent (us : list N) : option string :=
  match us with
  | [] => Some ""
  | u :: rest =>
      if is_unescaped u then
        String (ascii_of_N u) <$> encodeURIComponent rest
      else if is_high_surrogate u then
        match rest with
        | lo :: rest' =>
            if is_low_surrogate lo then
              let cp := (65536 + (u - 55296) * 1024 + (lo - 56320))%N in
              (λ t, percent_all (utf8 cp) +:+ t) <$> encodeURIComponent rest'
            else None
        | [] => None
        end
      else if is_low_surrogate u then None
      else (λ t, percent_all (utf8 u) +:+ t) <$> encodeURIComponent rest
  end.

(** [s.isWellFormed()]: no surrogate stands without its partner. *)
Fixpoint isWellFormed (us : list N) : bool :=
  match us with
  | [] => true
  | u :: rest =>
      if is_high_surrogate u then
        match rest with
        | lo :: rest' => is_low_surrogate lo && isWellFormed rest'
        | [] => false
        end
      else negb (is_low_surrogate u) && isWellFormed rest
  end.

(** Code units are 16 bits wide. *)
Definition is_code_units (us : list N) : bool :=
  forallb (λ u, u <? 65536)%N us.

(** The texts [encodeURIComponent] writes: characters of the unescaped set
    and escapes [%XY], with [X] and [Y] upper-case hexadecimal digits, none
    of them being [%2E] (the dot is never escaped). *)
Definition is_upper_hex (c : ascii) : bool :=
  let n := code c in
  ((48 <=? n) && (n <=? 57) || (65 <=? n) && (n <=? 70))%N.

Fixpoint well_escaped (s : string) : bool :=
  match s with
  | EmptyString => true
  | String c r =>
      if (code c =? 37)%N then
        match r with
        | String h1 (String h2 r') =>
            is_upper_hex h1 && is_upper_hex h2
            && negb ((code h1 =? 50) && (code h2 =? 69))%N
            && well_escaped r'
        | _ => false
        end
      else is_unescaped (code c) && well_escaped r
  end.

(** The escape of the byte [b] is made of upper-case hexadecimal digits
    and is not [%2E]. *)
Definition escape_ok (b : N) : bool :=
  is_upper_hex (hex_upper (b / 16)) && is_upper_hex (hex_upper (b mod 16))
  && negb ((code (hex_upper (b / 16)) =? 50)
           && (code (hex_upper (b mod 16)) =? 69))%N.

(** The code units of a byte string whose bytes are all ASCII. *)
Definition units (s : string) : list N := map code (list_ascii_of_string s).

(** ** The path of a URL

    The path state of the URL parser for an [http] URL, on the text that
    follows the authority: the leading [/] is skipped, the text up to the
    first [?] or [#] is cut at every [/] and [\], a double-dot segment drops
    the segment before it, a single-dot segment is skipped, and a dot segment
    in last position leaves an empty segment.  Characters are kept as they
    are (the percent-encoding of the path state is not represented). *)
Definition is_path_sep (c : ascii) : bool :=
  ((code c =? 47) || (code c =? 92))%N.

Definition is_path_end (c : ascii) : bool :=
  ((code c =? 63) || (code c =? 35))%N.

(** A character that neither cuts nor ends a path. *)
Definition plain_char (c : ascii) : Prop :=
  is_path_sep c = false ∧ is_path_end c = false.

Fixpoint path_only (s : string) : string :=
  match s with
  | EmptyString => ""
  | String c r => if is_path_end c then "" else String c (path_only r)
  end.

Fixpoint segments (s : string) : list string :=
  match s with
  | EmptyString => [""]
  | String c r =>
      if is_path_sep c then "" :: segments r
      else match segments r with
           | seg :: more => String c seg :: more
           | [] => [String c ""]
           end
  end.

Definition is_single_dot (seg : string) : bool :=
  bool_decide (seg ∈ ["."; "%2e"; "%2E"]).

Definition is_double_dot (seg : string) : bool :=
  bool_decide (seg ∈ [".."; ".%2e"; ".%2E"; "%2e."; "%2E."; "%2e%2e";
                      "%2E%2E"; "%2e%2E"; "%2E%2e"]).

(** "Shorten" a path: drop its last segment, if any. *)
Definition shorten (path : list string) : list string :=
  take (length path - 1) path.

Fixpoint resolve_segments (path : list string) (segs : list string) : list string :=
  match segs with
  | [] => path
  | seg :: rest =>
      let trailing := match rest with [] => [""] | _ => [] end in
      if is_double_dot seg then resolve_segments (shorten path ++ trailing) rest
      else if is_single_dot seg then resolve_segments (path ++ trailing) rest
      else resolve_segments (path ++ [seg]) rest
  end.

Definition url_path (text : string) : list string :=
  let after_slash :=
    match text with
    | String c r => if is_path_sep c then r else text
    | EmptyString => text
    end in
  resolve_segments [] (segments (path_only after_slash)).

End JS.

(* ================================================================== *)
(** * components/FilterPanel.tsx                                       *)
(* ================================================================== *)

Module FilterPanel.
Import JS.

Inductive SortKey : Type := relevance | price_asc | price_desc | newest.

Record FilterState : Type := mkFilterState {
  query : string;
  category : option string;        (* [None] is [null] *)
  price : number * number;         (* [min, max] *)
  colors : list string;
  inStock : bool;
  detectedTags : list string;
  sort : SortKey
}.

(** [Partial<FilterState>]: every key may be missing. *)
Record PartialState : Type := mkPartial {
  p_query : option string;
  p_category : option (option string);
  p_price : option (number * number);
  p_colors : option (list string);
  p_inStock : option bool;
  p_detectedTags : option (list string);
  p_sort : option SortKey
}.

Definition DEFAULTS : FilterState :=
  {| query := ""; category := None; price := (Fin 0, Fin 1000);
     colors := []; inStock := false; detectedTags := [];
     sort := relevance |}.

(** [{ ...s, ...value }] *)
Definition spread (s : FilterState) (value : PartialState) : FilterState :=
  {| query := default (query s) (p_query value);
     category := default (category s) (p_category value);
     price := default (price s) (p_price value);
     colors := default (colors s) (p_colors value);
     inStock := default (inStock s) (p_inStock value);
     detectedTags := default (detectedTags s) (p_detectedTags value);
     sort := default (sort s) (p_sort value) |}.

(** [useState({ ...DEFAULTS, ...value })] *)
Definition initial (value : PartialState) : FilterState := spread DEFAULTS value.

(** [const minMax = [Math.min(min, max), Math.max(min, max)]], the pair
    rendered in the "Price range" label. *)
Definition minMax (s : FilterState) : number * number :=
  let '(min, max) := price s in (Math_min min max, Math_max min max).

Definition toggle (x : string) (xs : list string) : list string :=
  if includes x xs then filter (λ y, y ≠ x) xs else xs ++ [x].

Definition toggleColor (hex : string) (s : FilterState) : FilterState :=
  {| query := query s; category := category s; price := price s;
     colors := toggle hex (colors s);
     inStock := inStock s; detectedTags := detectedTags s; sort := sort s |}.

Definition toggleTag (t : string) (s : FilterState) : FilterState :=
  {| query := query s; category := category s; price := price s;
     colors := colors s; inStock := inStock s;
     detectedTags := toggle t (detectedTags s); sort := sort s |}.

Definition clearAll (_ : FilterState) : FilterState := DEFAULTS.

(** [Number(e.target.value || 0)]: the empty string is falsy, so it is
    replaced by the number [0]; any other text goes through [Number]. *)
Definition Number_or_0 (value : string) : number :=
  if decide (value = "") then Fin 0 else StringToNumber value.

Definition onMinChange (value : string) (s : FilterState) : FilterState :=
  {| query := query s; category := category s;
     price := (Number_or_0 value, snd (price s));
     colors := colors s; inStock := inStock s;
     detectedTags := detectedTags s; sort := sort s |}.

Definition onMaxChange (value : string) (s : FilterState) : FilterState :=
  {| query := query s; category := category s;
     price := (fst (price s), Number_or_0 value);
     colors := colors s; inStock := inStock s;
     detectedTags := detectedTags s; sort := sort s |}.

Definition onQueryChange (value : string) (s : FilterState) : FilterState :=
  {| query := value; category := category s; price := price s;
     colors := colors s; inStock := inStock s;
     detectedTags := detectedTags s; sort := sort s |}.

(** [category: e.target.value || null] *)
Definition onCategoryChange (value : string) (s : FilterState) : FilterState :=
  {| query := query s;
     category := if decide (value = "") then None else Some value;
     price := price s; colors := colors s; inStock := inStock s;
     detectedTags := detectedTags s; sort := sort s |}.

Definition onStockChange (checked : bool) (s : FilterState) : FilterState :=
  {| query := query s; category := category s; price := price s;
     colors := colors s; inStock := checked;
     detectedTags := detectedTags s; sort := sort s |}.

Definition onSortChange (k : SortKey) (s : FilterState) : FilterState :=
  {| query := query s; category := category s; price := price s;
     colors := colors s; inStock := inStock s;
     detectedTags := detectedTags s; sort := k |}.

(** What the user can do to the panel.  The two price inputs are declared
    [type="number"]: the handler sees the sanitized value of what was typed. *)
Inductive Event : Type :=
  | TypeQuery (text : string)
  | SelectCategory (value : string)
  | TypeMin (typed : string)
  | TypeMax (typed : string)
  | ClickColor (hex : string)
  | ClickTag (t : string)
  | CheckStock (checked : bool)
  | SelectSort (k : SortKey)
  | ClickClear.

Definition step (s : FilterState) (e : Event) : FilterState :=
  match e with
  | TypeQuery v => onQueryChange v s
  | SelectCategory v => onCategoryChange v s
  | TypeMin t => onMinChange (number_input_value t) s
  | TypeMax t => onMaxChange (number_input_value t) s
  | ClickColor hex => toggleColor hex s
  | ClickTag t => toggleTag t s
  | CheckStock b => onStockChange b s
  | SelectSort k => onSortChange k s
  | ClickClear => clearAll s
  end.

(** [useEffect(() => onChange(state), [state])]: the parent is handed the
    state after mount and after every update.  [emitted s es] lists what
    [onChange] receives while the events [es] are played from [s]. *)
Fixpoint emitted (s : FilterState) (es : list Event) : list FilterState :=
  match es with
  | [] => [s]
  | e :: es' => s :: emitted (step s e) es'
  end.

Definition is_price_edit (e : Event) : bool :=
  match e with TypeMin _ | TypeMax _ => true | _ => false end.

(** Neither bound of the stored interval is [NaN]. *)
Definition price_defined (s : FilterState) : bool :=
  negb (is_NaN (fst (price s))) && negb (is_NaN (snd (price s))).

(** [min <= max] for a pair of bounds. *)
Definition interval_ordered (p : number * number) : bool :=
  num_le (fst p) (snd p).

(** A whole state handed in as the [value] prop, as the root component
    does with its [filters]. *)
Definition as_value (s : FilterState) : PartialState :=
  {| p_query := Some (query s); p_category := Some (category s);
     p_price := Some (price s); p_colors := Some (colors s);
     p_inStock := Some (inStock s); p_detectedTags := Some (detectedTags s);
     p_sort := Some (sort s) |}.

(** A [value] prop without any key. *)
Definition no_value : PartialState :=
  {| p_query := None; p_category := None; p_price := None; p_colors := None;
     p_inStock := None; p_detectedTags := None; p_sort := None |}.

End FilterPanel.

(* ================================================================== *)
(** * services/api.ts                                                  *)
(* ================================================================== *)

Module Api.
Import JS.

(** A [File]: its name and its bytes. *)
Record File : Type := mkFile { name : string; content : string }.

(** [Product]: the optional fields are [None] when missing or [null]. *)
Record Product : Type := mkProduct {
  id : string;
  title : string;
  imageUrl : string;
  price : option number;
  badges : option (list string);
  distanceScore : option number;
  meta : option (list (string * value))
}.

(** [SearchResponse], as its readers treat it: [items] and [total] may be
    missing. *)
Record SearchResponse : Type := mkSearchResponse {
  items : option (list Product);
  total : option number;
  tookMs : option number
}.

(** [FormData]: the entries in the order they were appended. *)
Inductive FormValue : Type :=
  | FileEntry (f : File) (filename : string)
  | TextEntry (text : string).

Abbreviation FormData := (list (string * FormValue)).

Definition FormData_append (form : FormData) (field : string) (v : FormValue)
  : FormData := form ++ [(field, v)].

(** [form.getAll(field)] *)
Definition FormData_getAll (field : string) (form : FormData) : list FormValue :=
  snd <$> filter (λ e, fst e = field) form.

(** A thrown object: its [name] and its [message]. *)
Record Error : Type := mkError { err_name : string; err_message : string }.

Definition new_Error (message : string) : Error :=
  {| err_name := "Error"; err_message := message |}.

(** The [DOMException] an [AbortController] aborts with when [abort()] is
    given no reason; the wording of its message is the browser's. *)
Definition AbortError : Error :=
  {| err_name := "AbortError"; err_message := "signal is aborted without reason" |}.

(** How a promise settles. *)
Inductive Outcome (T : Type) : Type :=
  | Resolved (v : T)
  | Rejected (e : Error).
Arguments Resolved {T} v.
Arguments Rejected {T} e.

Inductive AbortSignal : Type :=
  | Live
  | Aborted (reason : Error).

(** [controller.abort()] *)
Definition abort (sg : AbortSignal) : AbortSignal :=
  match sg with
  | Live => Aborted AbortError
  | Aborted r => Aborted r
  end.

(** A [Response]: [text] and [json] are what [res.text()] and [res.json()]
    settle with. *)
Record Response : Type := mkResponse {
  status : N;
  statusText : string;
  text : Outcome string;
  json : Outcome value
}.

Definition ok (r : Response) : bool :=
  ((200 <=? status r) && (status r <=? 299))%N.

Inductive Body : Type :=
  | FormBody (form : FormData)
  | TextBody (payload : string).

Record Request : Type := mkRequest {
  method : string;
  url : string;
  headers : list (string * string);
  body : option Body
}.

Record RequestOptions : Type := mkOptions {
  opt_method : option string;
  opt_headers : option (list (string * string));
  opt_body : option Body;
  opt_signal : option AbortSignal
}.

(** [{ ...base, ...extra }] on header objects. *)
Definition spread_headers (base extra : list (string * string))
  : list (string * string) :=
  filter (λ h, fst h ∉ fst <$> extra) base ++ extra.

Definition is_FormData (b : option Body) : bool :=
  match b with Some (FormBody _) => true | _ => false end.

(** [f.name || `image_${i}.jpg`] *)
Definition upload_name (i : nat) (f : File) : string :=
  str_or (name f) ("image_" +:+ pretty i +:+ ".jpg").

(** The entry [form.append("files", f, ...)] adds for the file of rank [i]. *)
Definition file_entry (i : nat) (f : File) : string * FormValue :=
  ("files", FileEntry f (upload_name i f)).

(** The [payload] of [apiRequest]: the parsed body, or [null] when
    [res.json()] fails. *)
Definition payload_of (res : Response) : value :=
  match json res with Resolved v => v | Rejected _ => Null end.

(** The call has no signal, or one that is not aborted. *)
Definition live (signal : option AbortSignal) : bool :=
  match signal with Some (Aborted _) => false | _ => true end.

Section Client.
(** The configured base URL, the platform's rendering of numbers, and the
    network: how the request, once sent, is answered. *)
Variable API_BASE : string.
Variable Number_toString : number → string.
Variable network : Request → Outcome Response.

(** [fetch(url, init)]: the requests put on the network, and how the
    promise settles.  With a signal that is already aborted nothing is
    sent and the promise rejects with the signal's reason. *)
Definition fetch (req : Request) (signal : option AbortSignal)
  : list Request * Outcome Response :=
  match signal with
  | Some (Aborted reason) => ([], Rejected reason)
  | _ => ([req], network req)
  end.

(** The message of the error [apiRequest] throws on a response that is
    not ok: [payload?.message || payload?.detail || `API error ...`]. *)
Definition api_error_message (res : Response) : string :=
  let payload := payload_of res in
  ToString Number_toString
    (or_else (or_else (opt_get payload "message") (opt_get payload "detail"))
       (Str ("API error " +:+ pretty (status res) +:+ " " +:+ statusText res))).

Definition apiRequest (path : string) (opts : RequestOptions)
  : list Request * Outcome value :=
  let req :=
    {| method := default "GET" (opt_method opts);
       url := API_BASE +:+ path;
       headers :=
         spread_headers
           (if is_FormData (opt_body opts) then []
            else [("Content-Type", "application/json")])
           (default [] (opt_headers opts));
       body := opt_body opts |} in
  let '(sent, settled) := fetch req (opt_signal opts) in
  (sent,
   match settled with
   | Rejected e => Rejected e
   | Resolved res =>
       let payload := payload_of res in
       if ok res then Resolved payload
       else Rejected (new_Error (api_error_message res))
   end).

Definition buildSearchForm (files : list File) (filters : option object)
  : FormData :=
  let form :=
    foldl (λ form '(i, f),
             FormData_append form "files" (FileEntry f (upload_name i f)))
          [] (imap (λ i f, (i, f)) files) in
  match filters with
  | Some o =>
      if bool_decide (0 < length (Object_keys o))%nat
      then FormData_append form "filters"
             (TextEntry (default "undefined" (JSON_stringify Number_toString (Obj o))))
      else form
  | None => form
  end.

Definition search_request (files : list File) (filters : option object)
  : Request :=
  {| method := "POST"; url := API_BASE +:+ "/search"; headers := [];
     body := Some (FormBody (buildSearchForm files filters)) |}.

(** The message of the error [uploadAndSearch] throws on a response that
    is not ok: [text || `Search failed: ...`], [text] being the body, or
    the empty string when the body cannot be read. *)
Definition search_error_message (res : Response) : string :=
  str_or (match text res with Resolved t => t | Rejected _ => "" end)
         ("Search failed: " +:+ pretty (status res) +:+ " " +:+ statusText res).

Definition uploadAndSearch (files : list File) (filters : option object)
    (signal : option AbortSignal) : list Request * Outcome value :=
  let '(sent, settled) := fetch (search_request files filters) signal in
  (sent,
   match settled with
   | Rejected e => Rejected e
   | Resolved res =>
       if negb (ok res) then Rejected (new_Error (search_error_message res))
       else json res
   end).

Definition getHealth (signal : option AbortSignal)
  : list Request * Outcome value :=
  apiRequest "/health"
    {| opt_method := Some "GET"; opt_headers := None; opt_body := None;
       opt_signal := signal |}.

Definition getCategories (signal : option AbortSignal)
  : list Request * Outcome value :=
  apiRequest "/categories"
    {| opt_method := Some "GET"; opt_headers := None; opt_body := None;
       opt_signal := signal |}.

Definition getTags (signal : option AbortSignal)
  : list Request * Outcome value :=
  apiRequest "/tags"
    {| opt_method := Some "GET"; opt_headers := None; opt_body := None;
       opt_signal := signal |}.

Definition precomputeEmbeddings (signal : option AbortSignal)
  : list Request * Outcome value :=
  apiRequest "/precompute"
    {| opt_method := Some "POST"; opt_headers := None; opt_body := None;
       opt_signal := signal |}.

(** The path [getProduct] asks for; [None] when [encodeURIComponent]
    throws, in which case no call is made. *)
Definition product_path (id : list N) : option string :=
  (λ enc, "/products/" +:+ enc) <$> encodeURIComponent id.

Definition getProduct (id : list N) (signal : option AbortSignal)
  : option (list Request * Outcome value) :=
  (λ path,
     apiRequest path
       {| opt_method := Some "GET"; opt_headers := None; opt_body := None;
          opt_signal := signal |})
  <$> product_path id.

(** [withAbort(uploadAndSearch)]: [run(...args)] calls
    [fn(...args, controller.signal)], so the signal lands right after the
    arguments given.  With the files alone it lands in the [filters]
    parameter (an object without own enumerable properties) and the call
    has no signal. *)
Inductive RunArgs : Type :=
  | FilesOnly (files : list File)
  | FilesAndFilters (files : list File) (filters : option object).

Definition run (controller : AbortSignal) (args : RunArgs)
  : list Request * Outcome value :=
  match args with
  | FilesOnly files => uploadAndSearch files (Some []) None
  | FilesAndFilters files filters =>
      uploadAndSearch files filters (Some controller)
  end.

Definition cancel (controller : AbortSignal) : AbortSignal := abort controller.
End Client.

(** A filter "is set" in a filters object when one of its properties holds
    a value other than [undefined]. *)
Definition is_defined (v : value) : bool :=
  match v with Undefined => false | _ => true end.

Definition some_filter_set (filters : option object) : bool :=
  match filters with
  | Some o => existsb (λ kv, is_defined (snd kv)) o
  | None => false
  end.

(** The request of a call without body: the method, the path under the
    base URL, and the JSON content type [apiRequest] adds. *)
Definition plain_request (base method path : string) : Request :=
  {| method := method; url := base +:+ path;
     headers := [("Content-Type", "application/json")]; body := None |}.

(** [s.replace(/\/+$/, "")]: the run of slashes that ends the text is
    removed. *)
Fixpoint strip_trailing_slashes (s : string) : string :=
  match s with
  | EmptyString => ""
  | String c r =>
      match strip_trailing_slashes r with
      | EmptyString => if (code c =? 47)%N then "" else String c ""
      | r' => String c r'
      end
  end.

Definition default_base : string := "http://localhost:8000".

(** [API_BASE]: [env.VITE_API_URL?.replace(/\/+$/, "") || "http://localhost:8000"];
    the variable is [None] when it is not defined. *)
Definition configured_base (VITE_API_URL : option string) : string :=
  match VITE_API_URL with
  | Some u => str_or (strip_trailing_slashes u) default_base
  | None => default_base
  end.

(** A text made of [n] slashes. *)
Fixpoint slashes (n : nat) : string :=
  match n with
  | O => ""
  | S n' => String "/" (slashes n')
  end.

Fixpoint ends_with_slash (s : string) : bool :=
  match s with
  | EmptyString => false
  | String c EmptyString => (code c =? 47)%N
  | String _ r => ends_with_slash r
  end.

(** [Number.prototype.toString] on the integers, for the examples. *)
Definition integer_toString (n : number) : string :=
  match n with
  | Fin q => pretty (Qnum q / Zpos (Qden q))
  | Inf false => "Infinity"
  | Inf true => "-Infinity"
  | NaN => "NaN"
  end.

End Api.

(* ================================================================== *)
(** * components/ImageUpload.tsx                                       *)
(* ================================================================== *)

Module ImageUpload.
Import Api.

(** An object URL, named by its rank among the URLs the page created. *)
Abbreviation ObjectURL := nat.

(** What the component does to the outside. *)
Inductive Effect : Type :=
  | createObjectURL (u : ObjectURL)
  | revokeObjectURL (u : ObjectURL)
  | onFiles (files : list File).

(** The mounted component: the [previews] state, the trace of its effects so
    far, and the rank of the next URL the browser will hand out. *)
Record Component : Type := mkComponent {
  previews : list ObjectURL;
  next_url : nat;
  trace : list Effect
}.

Definition mount : Component :=
  {| previews := []; next_url := 0; trace := [] |}.

(** The clean-up of the effect [useEffect(() => () => previews.forEach(u =>
    URL.revokeObjectURL(u)), [previews])], for the [previews] of the render
    that installed it. *)
Definition cleanup (rendered : list ObjectURL) : list Effect :=
  revokeObjectURL <$> rendered.

(** [handleFiles(files)]: nothing for an empty list; otherwise one URL per
    file is created, [previews] becomes [[...urls, ...p].slice(0, 6)] and
    [onFiles] is called.  [previews] is a new array, so on the next commit
    the effect is re-installed and the clean-up of the previous render runs,
    over the previous [previews]. *)
Definition handleFiles (files : list File) (c : Component) : Component :=
  match files with
  | [] => c
  | _ =>
      let urls := seq (next_url c) (length files) in
      {| previews := take 6 (urls ++ previews c);
         next_url := next_url c + length files;
         trace := trace c ++ (createObjectURL <$> urls) ++ [onFiles files]
                          ++ cleanup (previews c) |}
  end.

(** Unmounting runs the clean-up of the last render. *)
Definition unmount (c : Component) : list Effect :=
  trace c ++ cleanup (previews c).

(** The whole life of a component: mount, the batches of files in turn,
    unmount. *)
Definition lifetime (batches : list (list File)) : list Effect :=
  unmount (foldl (λ c files, handleFiles files c) mount batches).

Definition created (t : list Effect) : list ObjectURL :=
  omap (λ e, match e with createObjectURL u => Some u | _ => None end) t.

Definition revoked (t : list Effect) : list ObjectURL :=
  omap (λ e, match e with revokeObjectURL u => Some u | _ => None end) t.

Definition times_revoked (u : ObjectURL) (t : list Effect) : nat :=
  length (filter (λ v, v = u) (revoked t)).

(** The component after some batches of files, given in turn. *)
Definition play (c : Component) (batches : list (list File)) : Component :=
  foldl (λ c files, handleFiles files c) c batches.

(** What [onFiles] was called with, call by call. *)
Definition forwarded (t : list Effect) : list (list File) :=
  omap (λ e, match e with onFiles files => Some files | _ => None end) t.

(** The URLs the browser hands out to each batch, when [start] is the rank
    of the next one. *)
Fixpoint batch_urls (start : nat) (batches : list (list File))
    : list (list ObjectURL) :=
  match batches with
  | [] => []
  | files :: rest =>
      seq start (length files) :: batch_urls (start + length files) rest
  end.

End ImageUpload.

(* ================================================================== *)
(** * App.tsx                                                          *)
(* ================================================================== *)

Module App.
Import JS Api FilterPanel.

Inductive ToastKind : Type := error | info | success.

Record Toast : Type := mkToast {
  id : string;
  kind : ToastKind;
  message : string
}.

Definition sort_name (k : SortKey) : string :=
  match k with
  | relevance => "relevance"
  | price_asc => "price_asc"
  | price_desc => "price_desc"
  | newest => "newest"
  end.

(** [toApiFilters]: [query: f.query || undefined],
    [category: f.category ?? undefined], the other keys as they are. *)
Definition toApiFilters (f : FilterState) : object :=
  [ ("query", if decide (query f = "") then Undefined else Str (query f));
    ("category", match category f with Some c => Str c | None => Undefined end);
    ("price", Arr [Num (fst (price f)); Num (snd (price f))]);
    ("colors", Arr (Str <$> colors f));
    ("inStock", Bool (inStock f));
    ("detectedTags", Arr (Str <$> detectedTags f));
    ("sort", Str (sort_name (sort f))) ].

(** [uid(prefix)]: [`${prefix}_${Math.random().toString(36).slice(2, 8)}`].
    The random draw is given by its rendering in radix 36, [random36], the
    text ["0."] followed by the digits of the draw (or ["0"] alone). *)
Definition token (random36 : string) : string := slice 2 8 random36.

Definition uid (prefix : string) (random36 : string) : string :=
  prefix +:+ "_" +:+ token random36.

(** The state of the root component, with the browser's clock (in
    milliseconds) and its pending timers: the time each one is due and the
    toast identifier its callback removes. *)
Record State : Type := mkState {
  filters : FilterState;
  isSearching : bool;
  results : list Product;
  total : number;
  toasts : list Toast;
  timers : list (Z * string);
  clock : Z
}.

Definition initial : State :=
  {| filters := DEFAULTS; isSearching := false; results := [];
     total := Fin 0; toasts := []; timers := []; clock := 0 |}.

Definition set_isSearching (b : bool) (st : State) : State :=
  {| filters := filters st; isSearching := b; results := results st;
     total := total st; toasts := toasts st;
     timers := timers st; clock := clock st |}.

Definition set_results (rs : list Product) (st : State) : State :=
  {| filters := filters st; isSearching := isSearching st; results := rs;
     total := total st; toasts := toasts st;
     timers := timers st; clock := clock st |}.

Definition set_total (n : number) (st : State) : State :=
  {| filters := filters st; isSearching := isSearching st;
     results := results st; total := n; toasts := toasts st;
     timers := timers st; clock := clock st |}.

Definition set_filters (f : FilterState) (st : State) : State :=
  {| filters := f; isSearching := isSearching st; results := results st;
     total := total st; toasts := toasts st;
     timers := timers st; clock := clock st |}.

(** [pushToast(kind, message)]: the toast is appended and a timer is set
    that, 3200 ms later, removes the toasts bearing its identifier. *)
Definition pushToast (k : ToastKind) (msg : string) (random36 : string)
    (st : State) : State :=
  let i := uid "toast" random36 in
  {| filters := filters st; isSearching := isSearching st;
     results := results st; total := total st;
     toasts := toasts st ++ [{| id := i; kind := k; message := msg |}];
     timers := timers st ++ [(clock st + 3200, i)];
     clock := clock st |}.

(** The timer's callback: [setToasts(t => t.filter(x => x.id !== id))]. *)
Definition expire (i : string) (ts : list Toast) : list Toast :=
  filter (λ x, id x ≠ i) ts.

(** Time passes: the clock moves on by [dt] and the timers that are due
    by then fire, in the order they were set. *)
Definition advance (dt : Z) (st : State) : State :=
  let now := clock st + dt in
  let due := filter (λ t, fst t ≤ now) (timers st) in
  {| filters := filters st; isSearching := isSearching st;
     results := results st; total := total st;
     toasts := foldl (λ ts t, expire (snd t) ts) (toasts st) due;
     timers := filter (λ t, ¬ fst t ≤ now) (timers st);
     clock := now |}.

Definition no_match_text : string :=
  "No matches found. Try adjusting filters or another image.".

(** [res.total || 0] *)
Definition total_or_0 (t : option number) : number :=
  match t with
  | Some n => if truthy (Num n) then n else Fin 0
  | None => Fin 0
  end.

(** [!res.items?.length] *)
Definition no_items (res : SearchResponse) : bool :=
  match Api.items res with
  | Some (_ :: _) => false
  | _ => true
  end.

(** [handleFiles(files)], from the call to its end: nothing happens for an
    empty list; otherwise [isSearching] is raised, the search is awaited
    and settles with [settled], and the [try]/[catch]/[finally] runs.
    [random36] is the draw a toast would use. *)
Definition handleFiles (files : list File) (settled : Outcome SearchResponse)
    (random36 : string) (st : State) : State :=
  match files with
  | [] => st
  | _ =>
      let st1 := set_isSearching true st in
      let st2 :=
        match settled with
        | Resolved res =>
            let st' := set_total (total_or_0 (Api.total res))
                         (set_results (default [] (Api.items res)) st1) in
            if no_items res then pushToast info no_match_text random36 st'
            else st'
        | Rejected err =>
            pushToast error (str_or (err_message err) "Search failed")
                      random36 st1
        end in
      set_isSearching false st2
  end.

(** What the user and the environment do to the root component. *)
Inductive Event : Type :=
  | FilesGiven (files : list File) (settled : Outcome SearchResponse)
               (random36 : string)
  | ToastRaised (k : ToastKind) (msg : string) (random36 : string)
  | FiltersChanged (f : FilterState)
  | ResultsCleared
  | TimePasses (dt : Z).

Definition step (st : State) (e : Event) : State :=
  match e with
  | FilesGiven files settled r => handleFiles files settled r st
  | ToastRaised k msg r => pushToast k msg r st
  | FiltersChanged f => set_filters f st
  | ResultsCleared => set_results [] st
  | TimePasses dt => advance dt st
  end.

(** Time does not run backwards. *)
Definition event_ok (e : Event) : bool :=
  match e with TimePasses dt => bool_decide (0 ≤ dt) | _ => true end.

Definition run (st : State) (es : list Event) : State := foldl step st es.

(** The draw an event turns into a toast identifier, when it raises one. *)
Definition toast_draw (e : Event) : option string :=
  match e with
  | ToastRaised _ _ r => Some r
  | FilesGiven (_ :: _) (Rejected _) r => Some r
  | FilesGiven (_ :: _) (Resolved res) r => if no_items res then Some r else None
  | _ => None
  end.

Definition draws (es : list Event) : list string := omap toast_draw es.

(** Every toast held has a pending timer that bears its identifier and is
    due within 3200 ms. *)
Definition covered (st : State) : Prop :=
  ∀ t, t ∈ toasts st →
       ∃ due, (due, id t) ∈ timers st ∧ due ≤ clock st + 3200.

(** The health badge.  [apiHealthy] starts as [null]; the mount effect
    runs [getHealth().then(() => setApiHealthy(true),
    () => setApiHealthy(false))]. *)
Definition health_settled (answer : Outcome value) : option bool :=
  match answer with
  | Resolved _ => Some true
  | Rejected _ => Some false
  end.

Inductive Badge : Type := Online | Offline | Checking.

(** [apiHealthy ? "API Online" : apiHealthy === false ? "API Offline" :
    "Checking..."] *)
Definition health_badge (apiHealthy : option bool) : Badge :=
  match apiHealthy with
  | Some true => Online
  | Some false => Offline
  | None => Checking
  end.

(** [x > y] of the language: false as soon as one side is [NaN]. *)
Definition num_gt (x y : number) : bool :=
  match x, y with
  | NaN, _ | _, NaN => false
  | _, _ => negb (num_le x y)
  end.

(** The line above the results: [isSearching ? "Searching..." : total ?
    `${total} result${total > 1 ? "s" : ""}` : "No results yet"]. *)
Inductive Header : Type :=
  | Searching
  | Count (n : number) (plural : bool)
  | NoResultsYet.

Definition results_header (st : State) : Header :=
  if isSearching st then Searching
  else if truthy (Num (total st))
       then Count (total st) (num_gt (total st) (Fin 1))
       else NoResultsYet.

(** What stands below it: the skeleton while searching, else one card per
    result, else the empty state. *)
Inductive ResultsArea : Type :=
  | SkeletonGrid
  | Grid (cards : list Product)
  | EmptyState.

Definition results_body (st : State) : ResultsArea :=
  if isSearching st then SkeletonGrid
  else match results st with
       | [] => EmptyState
       | _ => Grid (results st)
       end.

(** [filteredSummary]: the parts pushed, then [parts.join(" · ")].  Text
    outside ASCII is held as its UTF-8 bytes. *)
Definition summary_parts (f : FilterState) : list string :=
  (if truthy (Str (query f)) then ["“" +:+ query f +:+ "”"] else [])
  ++ match category f with
     | Some c => if truthy (Str c) then [c] else []
     | None => []
     end
  ++ (if inStock f then ["In stock"] else [])
  ++ (if bool_decide (length (colors f) ≠ 0%nat)
      then [pretty (length (colors f)) +:+ " colors"] else [])
  ++ (if bool_decide (length (detectedTags f) ≠ 0%nat)
      then [pretty (length (detectedTags f)) +:+ " tags"] else []).

Definition filteredSummary (f : FilterState) : string :=
  String.concat " · " (summary_parts f).

(** [{filteredSummary && <p>Active: ...</p>}] *)
Definition active_line (f : FilterState) : option string :=
  if truthy (Str (filteredSummary f)) then Some (filteredSummary f) else None.

End App.

(* ================================================================== *)
(** * components/ProductCard.tsx                                       *)
(* ================================================================== *)

Module ProductCard.

(** The row of badges of a card: the badges shown, and the count that
    stands for the others, [+{badges.length - 4}], when there are more
    than four. *)
Record BadgeRow : Type := mkBadgeRow {
  shown : list string;
  overflow : option nat
}.

(** [{badges.length > 0 && (... badges.slice(0, 4).map(...) ...
    {badges.length > 4 && <span>+{badges.length - 4}</span>})}];
    the root component hands in [p.badges ?? []]. *)
Definition badge_row (badges : option (list string)) : option BadgeRow :=
  let badges := default [] badges in
  if bool_decide (0 < length badges)%nat
  then Some {| shown := take 4 badges;
               overflow := if bool_decide (4 < length badges)%nat
                           then Some (length badges - 4)%nat else None |}
  else None.

(** The number of badges a row stands for. *)
Definition accounted (row : option BadgeRow) : nat :=
  match row with
  | Some r => (length (shown r) + default 0 (overflow r))%nat
  | None => 0%nat
  end.

End ProductCard.

(* ================================================================== *)
(** * index.tsx: the theme class                                       *)
(* ================================================================== *)

Module Theme.

(** What [syncThemeClass] reads and writes: the items of [localStorage],
    whether the media query [(prefers-color-scheme: dark)] matches, and
    whether the root element bears the class [dark].  [modern] tells
    whether the media query list has [addEventListener]; where it has not,
    the call throws inside the [try], before the storage listener is
    added, and neither listener is installed. *)
Record World : Type := mkWorld {
  localStorage : gmap string string;
  prefersDark : bool;
  dark : bool;
  modern : bool
}.

(** [ls ? ls === "dark" : prefersDark], for [ls = localStorage.getItem(
    "theme")]. *)
Definition shouldDark (w : World) : bool :=
  match localStorage w !! "theme" with
  | Some ls => if bool_decide (ls = "") then prefersDark w
               else bool_decide (ls = "dark")
  | None => prefersDark w
  end.

(** [apply()]: [classList.toggle("dark", shouldDark)]. *)
Definition apply (w : World) : World :=
  {| localStorage := localStorage w; prefersDark := prefersDark w;
     dark := shouldDark w; modern := modern w |}.

(** The script runs [apply()] once, then installs the listeners. *)
Definition start (w : World) : World := apply w.

Definition set_storage (m : gmap string string) (w : World) : World :=
  {| localStorage := m; prefersDark := prefersDark w;
     dark := dark w; modern := modern w |}.

Definition set_prefersDark (b : bool) (w : World) : World :=
  {| localStorage := localStorage w; prefersDark := b;
     dark := dark w; modern := modern w |}.

(** What happens around the page.  The system theme changes; another
    document of the origin sets or removes an item, or clears the storage;
    this document writes an item itself. *)
Inductive Event : Type :=
  | SystemTheme (dark : bool)
  | ElsewhereSet (key value : string)
  | ElsewhereRemove (key : string)
  | ElsewhereClear
  | HereSet (key value : string).

(** The [storage] listener: [if (e.key === "theme") apply()]. *)
Definition on_storage (key : option string) (w : World) : World :=
  if bool_decide (key = Some "theme") then apply w else w.

Definition listen (handler : World → World) (w : World) : World :=
  if modern w then handler w else w.

(** The platform fires [change] on the media query list when [matches]
    changes, and [storage] in the other documents of the origin when a
    write changes the storage, with the key written, or [null] for
    [clear()]; the document that writes gets no event. *)
Definition step (w : World) (e : Event) : World :=
  match e with
  | SystemTheme b =>
      if bool_decide (b = prefersDark w) then w
      else listen apply (set_prefersDark b w)
  | ElsewhereSet k v =>
      if bool_decide (localStorage w !! k = Some v) then w
      else listen (on_storage (Some k))
             (set_storage (<[k := v]> (localStorage w)) w)
  | ElsewhereRemove k =>
      if bool_decide (localStorage w !! k = None) then w
      else listen (on_storage (Some k))
             (set_storage (delete k (localStorage w)) w)
  | ElsewhereClear =>
      if bool_decide (localStorage w = ∅) then w
      else listen (on_storage None) (set_storage ∅ w)
  | HereSet k v => set_storage (<[k := v]> (localStorage w)) w
  end.

Definition run (w : World) (es : list Event) : World := foldl step w es.

(** The events the page follows: all but a [clear()] elsewhere and a write
    of the item [theme] in this document. *)
Definition followed (e : Event) : bool :=
  match e with
  | SystemTheme _ | ElsewhereSet _ _ | ElsewhereRemove _ => true
  | ElsewhereClear => false
  | HereSet k _ => bool_decide (k ≠ "theme")
  end.

(** The class agrees with the stored theme and the system theme. *)
Definition in_sync (w : World) : bool :=
  bool_decide (dark w = shouldDark w).

End Theme.

(* ================================================================== *)
(** * Data for the examples                                            *)
(* ================================================================== *)

Module Samples.
Import JS Api.

Definition base : string := "http://localhost:8000".

Definition photo (n : string) : File := {| name := n; content := "" |}.

Definition seven_photos : list File :=
  photo <$> ["1.png"; "2.png"; "3.png"; "4.png"; "5.png"; "6.png"; "7.png"].

(** A 422 answer whose body is the JSON text of [{ detail: ... }]. *)
Definition rejection_payload : value :=
  Obj [("detail", Str "Unsupported image type")].

Definition rejection_text : string :=
  "{" +:+ json_quote "detail" +:+ ":" +:+ json_quote "Unsupported image type" +:+ "}".

Definition rejection : Response :=
  {| status := 422; statusText := "Unprocessable Entity";
     text := Resolved rejection_text; json := Resolved rejection_payload |}.

(** A 502 answer whose body is empty (and so is not JSON). *)
Definition bad_gateway : Response :=
  {| status := 502; statusText := "Bad Gateway";
     text := Resolved "";
     json := Rejected {| err_name := "SyntaxError";
                         err_message := "Unexpected end of JSON input" |} |}.

(** A network that answers every request with the same response. *)
Definition always (res : Response) : Request → Outcome Response :=
  λ _, Resolved res.

(** A filters object none of whose properties holds a value. *)
Definition nothing_set : object :=
  [("query", Undefined); ("category", Undefined)].

End Samples.

(* ================================================================== *)
(** * Properties                                                       *)
(* ================================================================== *)

Section FilterPanelFacts.
Import JS FilterPanel.

(** *** Comparison of numbers *)

Lemma num_le_total (x y : number) :
  is_NaN x = false → is_NaN y = false → num_le x y = false → num_le y x = true.
Proof.
  destruct x as [a|[]|], y as [b|[]|]; simpl; try done.
  intros _ _ Hab. apply Qle_bool_iff.
  destruct (Qlt_le_dec b a) as [Hlt|Hle].
  - by apply Qlt_le_weak.
  - apply Qle_bool_iff in Hle. congruence.
Qed.

Lemma Math_min_max_ordered (x y : number) :
  is_NaN x = false → is_NaN y = false →
  num_le (Math_min x y) (Math_max x y) = true.
Proof.
  intros Hx Hy. unfold Math_min, Math_max.
  destruct (num_le x y) eqn:Hle.
  - destruct x, y; try done.
  - pose proof (num_le_total x y Hx Hy Hle).
    destruct x, y; try done.
Qed.

(** *** Toggling a value in a list *)

Lemma includes_spec (x : string) (xs : list string) :
  includes x xs = true ↔ x ∈ xs.
Proof. unfold includes. apply bool_decide_eq_true. Qed.

Lemma toggle_present (x : string) (xs : list string) :
  x ∈ xs → toggle x xs = filter (λ y, y ≠ x) xs.
Proof.
  intros Hin. unfold toggle.
  by rewrite (proj2 (includes_spec x xs) Hin).
Qed.

Lemma toggle_absent (x : string) (xs : list string) :
  x ∉ xs → toggle x xs = xs ++ [x].
Proof.
  intros Hnin. unfold toggle.
  destruct (includes x xs) eqn:E; [|done].
  by apply includes_spec in E.
Qed.

Lemma toggle_flips (x : string) (xs : list string) :
  x ∈ toggle x xs ↔ x ∉ xs.
Proof.
  destruct (decide (x ∈ xs)) as [Hin|Hnin].
  - rewrite toggle_present by done. rewrite list_elem_of_filter. tauto.
  - rewrite toggle_absent by done. rewrite elem_of_app, list_elem_of_singleton.
    tauto.
Qed.

Lemma toggle_other (x y : string) (xs : list string) :
  y ≠ x → (y ∈ toggle x xs ↔ y ∈ xs).
Proof.
  intros Hne. destruct (decide (x ∈ xs)) as [Hin|Hnin].
  - rewrite toggle_present by done. rewrite list_elem_of_filter. tauto.
  - rewrite toggle_absent by done. rewrite elem_of_app, list_elem_of_singleton.
    tauto.
Qed.

Lemma toggle_toggle_elem (x y : string) (xs : list string) :
  y ∈ toggle x (toggle x xs) ↔ y ∈ xs.
Proof.
  destruct (decide (y = x)) as [->|Hne].
  - rewrite toggle_flips, toggle_flips.
    destruct (decide (x ∈ xs)); tauto.
  - by rewrite !toggle_other.
Qed.

(** When the value was absent, two toggles give back the very same list. *)
Lemma toggle_toggle_absent (x : string) (xs : list string) :
  x ∉ xs → toggle x (toggle x xs) = xs.
Proof.
  intros Hnin. rewrite (toggle_absent x xs Hnin).
  rewrite toggle_present by (rewrite elem_of_app, list_elem_of_singleton; tauto).
  rewrite filter_app. simpl.
  rewrite filter_cons_False by (intros H; by apply H).
  rewrite filter_nil, app_nil_r.
  induction xs as [|z zs IH]; [done|].
  apply not_elem_of_cons in Hnin as [Hzx Hzs].
  rewrite filter_cons_True by congruence. f_equal. by apply IH.
Qed.

End FilterPanelFacts.

Section NumberInputFacts.
Import JS FilterPanel.

(** *** What the scanners consume *)

Lemma consumed_nil (cs : list ascii) : consumed cs [] cs.
Proof. split; [done | constructor]. Qed.

Lemma consumed_cons (c : ascii) (cs pre rest : list ascii) :
  is_lit_char c = true → consumed cs pre rest → consumed (c :: cs) (c :: pre) rest.
Proof. intros Hc [-> Hpre]. split; [done | by constructor]. Qed.

Lemma consumed_trans (cs p1 r1 p2 r2 : list ascii) :
  consumed cs p1 r1 → consumed r1 p2 r2 → consumed cs (p1 ++ p2) r2.
Proof.
  intros [-> H1] [-> H2]. split; [by rewrite app_assoc | by apply Forall_app].
Qed.

Lemma digit_is_lit_char (c : ascii) : is_digit c = true → is_lit_char c = true.
Proof. unfold is_lit_char. by intros ->. Qed.

Lemma lit_char_not_space (c : ascii) : is_lit_char c = true → is_space c = false.
Proof.
  unfold is_lit_char, is_space, is_digit. intros H.
  apply not_true_iff_false. intros Hs. cbv zeta in H, Hs.
  repeat (apply orb_true_iff in H as [H|H]);
    try apply andb_true_iff in H as [H H'];
    apply orb_true_iff in Hs as [[Hs Hs']%andb_true_iff|Hs];
    rewrite ?N.leb_le, ?N.eqb_eq in *; lia.
Qed.

Lemma span_digits_consumed (cs ds rest : list ascii) :
  span_digits cs = (ds, rest) → consumed cs ds rest.
Proof.
  revert ds rest. induction cs as [|c cs IH]; simpl; intros ds rest H.
  - injection H as <- <-. apply consumed_nil.
  - destruct (is_digit c) eqn:Hd.
    + destruct (span_digits cs) as [ds' rest'] eqn:Hs.
      injection H as <- <-.
      apply consumed_cons; [by apply digit_is_lit_char | by apply IH].
    + injection H as <- <-. apply consumed_nil.
Qed.

Lemma scan_sign_consumed (cs : list ascii) (sg : option bool) (rest : list ascii) :
  scan_sign cs = (sg, rest) → ∃ pre, consumed cs pre rest.
Proof.
  destruct cs as [|c cs]; simpl; intros H.
  - injection H as <- <-. exists []. apply consumed_nil.
  - destruct (code c =? 45)%N eqn:E1; [|destruct (code c =? 43)%N eqn:E2];
      injection H as <- <-.
    + exists [c]. apply consumed_cons; [|apply consumed_nil].
      unfold is_lit_char. rewrite E1. by rewrite !orb_true_r.
    + exists [c]. apply consumed_cons; [|apply consumed_nil].
      unfold is_lit_char. rewrite E2. by rewrite !orb_true_r.
    + exists []. apply consumed_nil.
Qed.

Lemma scan_frac_consumed (cs : list ascii) (fp : option (list ascii))
    (rest : list ascii) :
  scan_frac cs = (fp, rest) → ∃ pre, consumed cs pre rest.
Proof.
  destruct cs as [|c cs]; simpl; intros H.
  - injection H as <- <-. exists []. apply consumed_nil.
  - destruct (code c =? 46)%N eqn:E.
    + destruct (span_digits cs) as [ds r] eqn:Hs. injection H as <- <-.
      exists (c :: ds). apply consumed_cons; [|by apply span_digits_consumed].
      unfold is_lit_char. rewrite E. by rewrite !orb_true_r.
    + injection H as <- <-. exists []. apply consumed_nil.
Qed.

Lemma scan_exp_consumed (cs : list ascii)
    (ep : option (option bool * list ascii)) (rest : list ascii) :
  scan_exp cs = (ep, rest) → ∃ pre, consumed cs pre rest.
Proof.
  destruct cs as [|c cs]; simpl; intros H.
  - injection H as <- <-. exists []. apply consumed_nil.
  - destruct ((code c =? 101) || (code c =? 69))%N eqn:E.
    + destruct (scan_sign cs) as [sg r1] eqn:Hsg.
      destruct (span_digits r1) as [ds r] eqn:Hs. injection H as <- <-.
      destruct (scan_sign_consumed _ _ _ Hsg) as [p1 Hp1].
      exists (c :: p1 ++ ds). apply consumed_cons.
      * unfold is_lit_char. apply orb_true_iff in E as [->| ->];
          by rewrite ?orb_true_r.
      * eapply consumed_trans; [done | by apply span_digits_consumed].
    + injection H as <- <-. exists []. apply consumed_nil.
Qed.

Lemma scan_decimal_consumed (cs : list ascii) (l : DecLit) (rest : list ascii) :
  scan_decimal cs = (l, rest) → ∃ pre, consumed cs pre rest.
Proof.
  unfold scan_decimal.
  destruct (scan_sign cs) as [sg r0] eqn:H0.
  destruct (span_digits r0) as [ip r1] eqn:H1.
  destruct (scan_frac r1) as [fp r2] eqn:H2.
  destruct (scan_exp r2) as [ep r3] eqn:H3.
  intros H; injection H as <- <-.
  destruct (scan_sign_consumed _ _ _ H0) as [p0 Hp0].
  destruct (scan_frac_consumed _ _ _ H2) as [p2 Hp2].
  destruct (scan_exp_consumed _ _ _ H3) as [p3 Hp3].
  exists (p0 ++ ip ++ p2 ++ p3).
  eapply consumed_trans; [done|].
  eapply consumed_trans; [by apply span_digits_consumed|].
  by eapply consumed_trans.
Qed.

(** *** Trimming a text without white space *)

Lemma drop_spaces_id (cs : list ascii) :
  Forall (λ c, is_space c = false) cs → drop_spaces cs = cs.
Proof. destruct 1 as [|c cs Hc _]; simpl; [done | by rewrite Hc]. Qed.

Lemma trim_id (cs : list ascii) :
  Forall (λ c, is_space c = false) cs → trim cs = cs.
Proof.
  intros H. unfold trim. rewrite (drop_spaces_id cs H).
  rewrite drop_spaces_id by (by apply List.Forall_rev).
  apply rev_involutive.
Qed.

(** *** A valid floating-point number is read as a number *)

Lemma html_float_ok_js (l : DecLit) : html_float_ok l = true → js_decimal_ok l = true.
Proof.
  unfold html_float_ok, js_decimal_ok.
  by destruct l as [[[]|] [|i ip] [[|f fd]|] [[sg [|e ed]]|]].
Qed.

Lemma valid_float_is_number (s : string) :
  valid_floating_point_number s = true → is_NaN (StringToNumber s) = false.
Proof.
  unfold valid_floating_point_number, StringToNumber.
  destruct (scan_decimal (list_ascii_of_string s)) as [l rest] eqn:Hscan.
  intros [Hrest Hok]%andb_true_iff.
  destruct rest; [clear Hrest | done].
  destruct (scan_decimal_consumed _ _ _ Hscan) as [pre [Hcs Hpre]].
  rewrite app_nil_r in Hcs. rewrite <- Hcs in Hpre.
  rewrite trim_id, Hscan; last first.
  { eapply Forall_impl; [exact Hpre|]. apply lit_char_not_space. }
  destruct (list_ascii_of_string s) as [|c cs]; [done|].
  destruct (parse_nondecimal (c :: cs)); [done|].
  destruct (parse_infinity (c :: cs)); [done|].
  by rewrite (html_float_ok_js l Hok).
Qed.

Lemma price_input_defined (typed : string) :
  is_NaN (Number_or_0 (number_input_value typed)) = false.
Proof.
  unfold number_input_value, Number_or_0.
  destruct (valid_floating_point_number typed) eqn:Hv.
  - destruct (decide (typed = "")); [done | by apply valid_float_is_number].
  - by destruct (decide ("" = "")).
Qed.

Lemma step_price_defined (s : FilterState) (e : Event) :
  price_defined s = true → price_defined (step s e) = true.
Proof.
  unfold price_defined. intros [H1 H2]%andb_true_iff.
  destruct e; simpl; rewrite ?H1, ?H2, ?price_input_defined; done.
Qed.

End NumberInputFacts.

(* ------------------------------------------------------------------ *)
(** ** The filter panel                                                *)
(* ------------------------------------------------------------------ *)

Section FilterPanelClaims.
Import JS FilterPanel.

(** C7. Toggling the same color (or tag) twice gives back the original
    membership of [colors] (or [detectedTags]): every value is a member after
    the two toggles exactly when it was one before.  The first toggle removes
    the value when it is present (all its occurrences) and appends it when it
    is absent, and the second toggle undoes that membership change.  No other
    field of the state moves. *)
Theorem toggle_twice_round_trip (s : FilterState) (v x : string) :
  (x ∈ colors (toggleColor v (toggleColor v s)) ↔ x ∈ colors s)
  ∧ (x ∈ detectedTags (toggleTag v (toggleTag v s)) ↔ x ∈ detectedTags s)
  ∧ (v ∈ colors s →
       colors (toggleColor v s) = filter (λ y, y ≠ v) (colors s)
       ∧ v ∉ colors (toggleColor v s))
  ∧ (v ∉ colors s → colors (toggleColor v s) = colors s ++ [v])
  ∧ (v ∈ detectedTags s →
       detectedTags (toggleTag v s) = filter (λ y, y ≠ v) (detectedTags s)
       ∧ v ∉ detectedTags (toggleTag v s))
  ∧ (v ∉ detectedTags s → detectedTags (toggleTag v s) = detectedTags s ++ [v])
  ∧ toggleColor v (toggleColor v s)
    = mkFilterState (query s) (category s) (price s)
        (toggle v (toggle v (colors s))) (inStock s) (detectedTags s) (sort s)
  ∧ toggleTag v (toggleTag v s)
    = mkFilterState (query s) (category s) (price s) (colors s) (inStock s)
        (toggle v (toggle v (detectedTags s))) (sort s).
Proof.
  split_and!; simpl.
  - apply toggle_toggle_elem.
  - apply toggle_toggle_elem.
  - intros Hin. split; [by apply toggle_present | rewrite toggle_flips; tauto].
  - apply toggle_absent.
  - intros Hin. split; [by apply toggle_present | rewrite toggle_flips; tauto].
  - apply toggle_absent.
  - reflexivity.
  - reflexivity.
Qed.

Lemma toggle_twice_round_trip_witness :
  "#ef4444" ∈ colors (toggleColor "#ef4444" DEFAULTS)
  ∧ colors (toggleColor "#ef4444" (toggleColor "#ef4444" DEFAULTS))
    = filter (λ y, y ≠ "#ef4444") (colors (toggleColor "#ef4444" DEFAULTS))
  ∧ "#ef4444" ∉ colors (toggleColor "#ef4444" (toggleColor "#ef4444" DEFAULTS)).
Proof.
  assert (Hin : "#ef4444" ∈ colors (toggleColor "#ef4444" DEFAULTS))
    by (vm_compute; constructor).
  split; [exact Hin|].
  exact (proj1 (proj2 (proj2
           (toggle_twice_round_trip
              (toggleColor "#ef4444" DEFAULTS) "#ef4444" "#ef4444"))) Hin).
Defined.



(** The guard in the handler covers the empty value only: a text that is
    not numeric would be stored as [NaN] if it reached the handler as it is.
    It is the [type="number"] of the inputs that rules this out. *)
Lemma Number_or_0_unsanitized :
  Number_or_0 "12abc" = NaN ∧ Number_or_0 "" = Fin 0.
Proof. split; reflexivity. Qed.




End FilterPanelClaims.

(* ------------------------------------------------------------------ *)
(** ** The upload component                                            *)
(* ------------------------------------------------------------------ *)

Section ImageUploadClaims.
Import Api ImageUpload Samples.

(** Every batch of files revokes all the previews held before it, whether
    or not they stay in the list. *)
Lemma handleFiles_revokes_held (files : list File) (c : Component) (u : ObjectURL) :
  files ≠ [] → u ∈ previews c → revokeObjectURL u ∈ trace (handleFiles files c).
Proof.
  intros Hne Hin. destruct files as [|f files]; [done|].
  unfold handleFiles. cbn [trace].
  rewrite !elem_of_app. right. right. right.
  unfold cleanup. by apply list_elem_of_fmap_2.
Qed.

(** C3 does not hold of the code.  Two photos added one after the other:
    the first URL is revoked when the second photo arrives, while it is still
    the second entry of the preview list, and it is revoked again at
    unmount.  Seven photos added at once: the seventh URL is created, never
    enters the six-entry list, and is never revoked. *)
Theorem preview_release_defect :
  previews (handleFiles [photo "b.png"] (handleFiles [photo "a.png"] mount))
    = [1; 0]%nat
  ∧ revoked (trace (handleFiles [photo "b.png"] (handleFiles [photo "a.png"] mount)))
    = [0]%nat
  ∧ revoked (lifetime [[photo "a.png"]; [photo "b.png"]]) = [0; 1; 0]%nat
  ∧ times_revoked 0%nat (lifetime [[photo "a.png"]; [photo "b.png"]]) = 2%nat
  ∧ created (lifetime [seven_photos]) = [0; 1; 2; 3; 4; 5; 6]%nat
  ∧ revoked (lifetime [seven_photos]) = [0; 1; 2; 3; 4; 5]%nat
  ∧ times_revoked 6%nat (lifetime [seven_photos]) = 0%nat.
Proof. repeat split. Qed.

End ImageUploadClaims.

(* ------------------------------------------------------------------ *)
(** ** The HTTP client                                                 *)
(* ------------------------------------------------------------------ *)

Section ClientClaims.
Import JS Api Samples.

Variable API_BASE : string.
Variable Number_toString : number → string.
Variable network : Request → Outcome Response.

Abbreviation fetch := (fetch network).
Abbreviation apiRequest := (apiRequest API_BASE Number_toString network).
Abbreviation buildSearchForm := (buildSearchForm Number_toString).
Abbreviation search_request := (search_request API_BASE Number_toString).
Abbreviation uploadAndSearch := (uploadAndSearch API_BASE Number_toString network).
Abbreviation api_error_message := (api_error_message Number_toString).

(** *** The multipart body *)

Lemma foldl_append_files (acc : FormData) (l : list (nat * File)) :
  foldl (λ form '(i, f),
           FormData_append form "files" (FileEntry f (upload_name i f)))
        acc l
  = acc ++ ((λ '(i, f), file_entry i f) <$> l).
Proof.
  revert acc. induction l as [|[i f] l IH]; intros acc; simpl.
  - by rewrite app_nil_r.
  - rewrite IH. unfold FormData_append. by rewrite <- app_assoc.
Qed.

Lemma buildSearchForm_entries (files : list File) (filters : option object) :
  buildSearchForm files filters
  = imap file_entry files
    ++ match filters with
       | Some ((_ :: _) as o) =>
           [("filters",
             TextEntry (default "undefined"
                          (JSON_stringify Number_toString (Obj o))))]
       | _ => []
       end.
Proof.
  unfold Api.buildSearchForm. rewrite foldl_append_files, fmap_imap.
  change (imap _ files) with (imap file_entry files). rewrite app_nil_l.
  destruct filters as [[|kv o]|]; rewrite ?app_nil_r.
  - by rewrite bool_decide_eq_false_2 by (cbn; lia).
  - rewrite bool_decide_eq_true_2 by (cbn; lia). reflexivity.
  - done.
Qed.

Lemma getAll_imap_files (g : nat → File → string * FormValue) (files : list File) :
  (∀ i f, fst (g i f) = "files") →
  FormData_getAll "files" (imap g files) = imap (λ i f, snd (g i f)) files
  ∧ FormData_getAll "filters" (imap g files) = [].
Proof.
  unfold FormData_getAll. revert g.
  induction files as [|f files IH]; intros g Hg; [done|].
  rewrite !imap_cons.
  rewrite filter_cons_True by (simpl; apply Hg).
  rewrite filter_cons_False by (simpl; rewrite Hg; done).
  destruct (IH (g ∘ S)) as [IH1 IH2]; [intros; apply Hg|].
  rewrite fmap_cons, IH1, IH2. done.
Qed.

Lemma getAll_buildSearchForm (files : list File) (filters : option object) :
  FormData_getAll "files" (buildSearchForm files filters)
    = imap (λ i f, FileEntry f (upload_name i f)) files
  ∧ FormData_getAll "filters" (buildSearchForm files filters)
    = match filters with
      | Some ((_ :: _) as o) =>
          [TextEntry (default "undefined" (JSON_stringify Number_toString (Obj o)))]
      | _ => []
      end.
Proof.
  rewrite buildSearchForm_entries.
  destruct (getAll_imap_files file_entry files) as [Hfiles Hnone]; [done|].
  unfold FormData_getAll in *. rewrite !filter_app, !fmap_app, Hfiles, Hnone.
  destruct filters as [[|kv o]|]; by rewrite ?app_nil_r.
Qed.

(** C4, amended. The body built for the search request holds one entry
    named [files] per file, in the order of the list (each with the file's
    name, or [image_<rank>.jpg] when it has none), followed by the entry
    [filters] exactly when a filters object is passed that has at least one
    own property; that entry is unique and holds the JSON text of the
    object.  A property that holds [undefined] counts as a property here,
    although the JSON text leaves it out. *)
Theorem search_form_fields (files : list File) (filters : option object) :
  FormData_getAll "files" (buildSearchForm files filters)
    = imap (λ i f, FileEntry f (upload_name i f)) files
  ∧ FormData_getAll "filters" (buildSearchForm files filters)
    = match filters with
      | Some ((_ :: _) as o) =>
          [TextEntry (default "undefined" (JSON_stringify Number_toString (Obj o)))]
      | _ => []
      end
  ∧ take (length files) (buildSearchForm files filters) = imap file_entry files
  ∧ length (buildSearchForm files filters)
    = (length files
       + length (FormData_getAll "filters" (buildSearchForm files filters)))%nat.
Proof.
  destruct (getAll_buildSearchForm files filters) as [Hfiles Hfilters].
  split_and!; [done | done | |].
  - rewrite buildSearchForm_entries.
    apply take_app_length'. by rewrite length_imap.
  - rewrite Hfilters, buildSearchForm_entries, length_app, length_imap.
    by destruct filters as [[|kv o]|].
Qed.

(** Every filters object the root component builds has its seven keys, so
    the searches it starts always carry the [filters] entry. *)
Lemma orchestrator_always_sends_filters (files : list File)
    (f : FilterPanel.FilterState) :
  length (Object_keys (App.toApiFilters f)) = 7%nat
  ∧ FormData_getAll "filters"
      (buildSearchForm files (Some (App.toApiFilters f)))
    = [TextEntry (default "undefined"
                    (JSON_stringify Number_toString (Obj (App.toApiFilters f))))].
Proof.
  split; [done|].
  by rewrite (proj2 (getAll_buildSearchForm files (Some (App.toApiFilters f)))).
Qed.

End ClientClaims.

Section ErrorPolicy.
Import JS Api Samples.

Variable API_BASE : string.
Variable Number_toString : number → string.
Variable network : Request → Outcome Response.

Abbreviation apiRequest := (apiRequest API_BASE Number_toString network).
Abbreviation search_request := (search_request API_BASE Number_toString).
Abbreviation uploadAndSearch := (uploadAndSearch API_BASE Number_toString network).
Abbreviation api_error_message := (api_error_message Number_toString).

Lemma fetch_live (req : Request) (signal : option AbortSignal) :
  live signal = true → fetch network req signal = ([req], network req).
Proof. by destruct signal as [[|reason]|]. Qed.

Lemma apiRequest_not_ok (res : Response) (path : string) (opts : RequestOptions) :
  (∀ req, network req = Resolved res) → ok res = false →
  live (opt_signal opts) = true →
  snd (apiRequest path opts) = Rejected (new_Error (api_error_message res)).
Proof.
  intros Hnet Hok Hlive. unfold Api.apiRequest.
  rewrite fetch_live, Hnet by done. simpl. by rewrite Hok.
Qed.

Lemma uploadAndSearch_not_ok (res : Response) (files : list File)
    (filters : option object) (signal : option AbortSignal) :
  network (search_request files filters) = Resolved res → ok res = false →
  live signal = true →
  uploadAndSearch files filters signal
  = ([search_request files filters],
     Rejected (new_Error (search_error_message res))).
Proof.
  intros Hnet Hok Hlive. unfold Api.uploadAndSearch.
  rewrite fetch_live, Hnet by done. by rewrite Hok.
Qed.

Lemma api_error_message_cases (res : Response) :
  (truthy (opt_get (payload_of res) "message") = true →
     api_error_message res
     = ToString Number_toString (opt_get (payload_of res) "message"))
  ∧ (truthy (opt_get (payload_of res) "message") = false →
     truthy (opt_get (payload_of res) "detail") = true →
     api_error_message res
     = ToString Number_toString (opt_get (payload_of res) "detail"))
  ∧ (truthy (opt_get (payload_of res) "message") = false →
     truthy (opt_get (payload_of res) "detail") = false →
     api_error_message res
     = "API error " +:+ pretty (status res) +:+ " " +:+ statusText res).
Proof.
  unfold Api.api_error_message, or_else. split_and!.
  - intros Hm. rewrite Hm. cbv iota. by rewrite Hm.
  - intros Hm Hd. rewrite Hm. cbv iota. by rewrite Hd.
  - intros Hm Hd. rewrite Hm. cbv iota. by rewrite Hd.
Qed.

(** C1, amended. On a response that is not 2xx, every call made through
    [apiRequest] (health, categories, tags, precompute, product) rejects with
    an [Error] whose message is the [message] property of the parsed body
    when it is truthy, else its [detail] property when that is truthy, else
    (also when the body is not JSON) the text
    [API error <status> <statusText>].  [uploadAndSearch] does not parse the
    body: its [Error] carries the body text as it is when that is not empty,
    else the text [Search failed: <status> <statusText>]. *)
Theorem non_ok_error_messages (res : Response) (signal : option AbortSignal)
    (files : list File) (filters : option object) :
  (∀ req, network req = Resolved res) → ok res = false → live signal = true →
  (∀ path opts, live (opt_signal opts) = true →
     snd (apiRequest path opts) = Rejected (new_Error (api_error_message res)))
  ∧ snd (getHealth API_BASE Number_toString network signal)
    = Rejected (new_Error (api_error_message res))
  ∧ snd (getCategories API_BASE Number_toString network signal)
    = Rejected (new_Error (api_error_message res))
  ∧ snd (getTags API_BASE Number_toString network signal)
    = Rejected (new_Error (api_error_message res))
  ∧ snd (precomputeEmbeddings API_BASE Number_toString network signal)
    = Rejected (new_Error (api_error_message res))
  ∧ (∀ id, is_Some (encodeURIComponent id) →
       snd <$> getProduct API_BASE Number_toString network id signal
       = Some (Rejected (new_Error (api_error_message res))))
  ∧ (truthy (opt_get (payload_of res) "message") = true →
       api_error_message res
       = ToString Number_toString (opt_get (payload_of res) "message"))
  ∧ (truthy (opt_get (payload_of res) "message") = false →
     truthy (opt_get (payload_of res) "detail") = true →
       api_error_message res
       = ToString Number_toString (opt_get (payload_of res) "detail"))
  ∧ (truthy (opt_get (payload_of res) "message") = false →
     truthy (opt_get (payload_of res) "detail") = false →
       api_error_message res
       = "API error " +:+ pretty (status res) +:+ " " +:+ statusText res)
  ∧ snd (uploadAndSearch files filters signal)
    = Rejected (new_Error (search_error_message res))
  ∧ (∀ t, text res = Resolved t → t ≠ "" → search_error_message res = t)
  ∧ (text res = Resolved "" ∨ (∃ e, text res = Rejected e) →
       search_error_message res
       = "Search failed: " +:+ pretty (status res) +:+ " " +:+ statusText res).
Proof.
  intros Hnet Hok Hlive.
  destruct (api_error_message_cases res) as (Hm & Hd & Hf).
  split_and!; try done.
  - intros path opts Hl. by apply apiRequest_not_ok.
  - by apply apiRequest_not_ok.
  - by apply apiRequest_not_ok.
  - by apply apiRequest_not_ok.
  - by apply apiRequest_not_ok.
  - intros id [enc Henc]. unfold getProduct, product_path. rewrite Henc. simpl.
    f_equal. by apply apiRequest_not_ok.
  - by rewrite (uploadAndSearch_not_ok res).
  - intros t Ht Hne. unfold search_error_message, str_or. rewrite Ht.
    by destruct (decide (t = "")).
  - intros [Ht|[e Ht]]; unfold search_error_message; by rewrite Ht.
Qed.


(** [run] passes the signal right after the arguments it is given: called
    with the files alone, the signal takes the place of the filters and the
    request is sent although the controller was cancelled. *)
Lemma cancelled_run_without_filters_is_sent (files : list File) :
  fst (run API_BASE Number_toString network (cancel Live) (FilesOnly files))
  = [search_request files None].
Proof. reflexivity. Qed.

End ErrorPolicy.

Lemma non_ok_error_messages_witness :
  Api.ok Samples.rejection = false
  ∧ snd (Api.getHealth Samples.base Api.integer_toString
           (Samples.always Samples.rejection) None)
    = Api.Rejected (Api.new_Error
        (Api.api_error_message Api.integer_toString Samples.rejection))
  ∧ Api.api_error_message Api.integer_toString Samples.rejection
    = "Unsupported image type"
  ∧ Api.api_error_message Api.integer_toString Samples.bad_gateway
    = "API error 502 Bad Gateway".
Proof.
  pose proof (non_ok_error_messages Samples.base Api.integer_toString
                (Samples.always Samples.rejection) Samples.rejection None
                [Samples.photo "a.png"] None
                (λ _, eq_refl) eq_refl eq_refl) as H.
  pose proof (non_ok_error_messages Samples.base Api.integer_toString
                (Samples.always Samples.bad_gateway) Samples.bad_gateway None
                [Samples.photo "a.png"] None
                (λ _, eq_refl) eq_refl eq_refl) as H'.
  split_and!.
  - reflexivity.
  - exact (proj1 (proj2 H)).
  - rewrite (proj1 (proj2 (proj2 (proj2 (proj2 (proj2 (proj2 (proj2 H)))))))
               eq_refl eq_refl).
    reflexivity.
  - rewrite (proj1 (proj2 (proj2 (proj2 (proj2 (proj2 (proj2 (proj2 (proj2 H'))))))))
               eq_refl eq_refl).
    reflexivity.
Defined.


(** C1, as stated, fails for [uploadAndSearch]: on a 422 answer whose body
    is the JSON text of an object with a [detail] property, the calls made
    through [apiRequest] throw an error carrying that property, while
    [uploadAndSearch] throws one carrying the whole body text. *)
Lemma search_error_is_raw_body :
  Api.ok Samples.rejection = false
  ∧ Api.json Samples.rejection
    = Api.Resolved (JS.Obj [("detail", JS.Str "Unsupported image type")])
  ∧ Api.text Samples.rejection = Api.Resolved Samples.rejection_text
  ∧ JS.JSON_stringify Api.integer_toString
      (JS.Obj [("detail", JS.Str "Unsupported image type")])
    = Some Samples.rejection_text
  ∧ snd (Api.getHealth Samples.base Api.integer_toString
           (Samples.always Samples.rejection) None)
    = Api.Rejected (Api.new_Error "Unsupported image type")
  ∧ snd (Api.uploadAndSearch Samples.base Api.integer_toString
           (Samples.always Samples.rejection) [Samples.photo "a.png"] None None)
    = Api.Rejected (Api.new_Error Samples.rejection_text)
  ∧ Samples.rejection_text ≠ "Unsupported image type".
Proof. split_and!; done. Qed.

(** C4, as stated, fails: with a filters object whose properties all hold
    [undefined] no filter is set, and yet the body carries a [filters] entry
    (the text of the empty object). *)
Lemma filters_field_without_filter_set :
  Api.some_filter_set (Some Samples.nothing_set) = false
  ∧ Api.buildSearchForm Api.integer_toString [Samples.photo "a.png"]
      (Some Samples.nothing_set)
    = [("files", Api.FileEntry (Samples.photo "a.png") "a.png");
       ("filters", Api.TextEntry "{}")].
Proof. split; reflexivity. Qed.

(* ------------------------------------------------------------------ *)
(** ** The root component                                              *)
(* ------------------------------------------------------------------ *)

Section SearchOutcome.
Import JS Api App Samples.



End SearchOutcome.

Section Toasts.
Import JS Api App Samples.

(** *** Identifiers *)

Lemma append_inv_head (p a b : string) : p +:+ a = p +:+ b → a = b.
Proof. induction p as [|c p IH]; simpl; intros H; [done | injection H; auto]. Qed.

Lemma uid_eq_iff (prefix r r' : string) :
  uid prefix r = uid prefix r' ↔ token r = token r'.
Proof.
  unfold uid. split; [|by intros ->].
  intros H. apply append_inv_head in H. by apply (append_inv_head "_").
Qed.

Lemma expired_sublist (due : list (Z * string)) (ts : list Toast) :
  foldl (λ ts t, expire (snd t) ts) ts due `sublist_of` ts.
Proof.
  revert ts. induction due as [|d due IH]; intros ts; simpl; [done|].
  etrans; [apply IH|]. apply sublist_filter.
Qed.

Lemma elem_of_expired (due : list (Z * string)) (ts : list Toast) (x : Toast) :
  x ∈ foldl (λ ts t, expire (snd t) ts) ts due ↔ x ∈ ts ∧ id x ∉ snd <$> due.
Proof.
  revert ts. induction due as [|d due IH]; intros ts; simpl.
  - rewrite elem_of_nil. tauto.
  - rewrite IH. unfold expire. rewrite list_elem_of_filter, not_elem_of_cons. tauto.
Qed.

Lemma step_toast_ids (st : State) (e : Event) :
  id <$> toasts (step st e)
  `sublist_of` (id <$> toasts st) ++ (uid "toast" <$> option_list (toast_draw e)).
Proof.
  destruct e as [files settled r|k msg r|f| |dt]; simpl.
  - destruct files as [|f files]; [by rewrite app_nil_r|].
    destruct settled as [res|err]; simpl.
    + destruct (no_items res); simpl; [by rewrite fmap_app | by rewrite app_nil_r].
    + by rewrite fmap_app.
  - by rewrite fmap_app.
  - by rewrite app_nil_r.
  - by rewrite app_nil_r.
  - rewrite app_nil_r. apply fmap_sublist, expired_sublist.
Qed.

Lemma run_toast_ids (st : State) (es : list Event) :
  id <$> toasts (run st es)
  `sublist_of` (id <$> toasts st) ++ (uid "toast" <$> draws es).
Proof.
  revert st. induction es as [|e es IH]; intros st; simpl.
  - by rewrite app_nil_r.
  - etrans; [apply IH|].
    unfold draws. simpl.
    destruct (toast_draw e) as [r|] eqn:Hr.
    + rewrite fmap_cons, cons_middle, app_assoc.
      apply sublist_app; [|done].
      pose proof (step_toast_ids st e) as H. by rewrite Hr in H.
    + apply sublist_app; [|done].
      pose proof (step_toast_ids st e) as H. rewrite Hr in H.
      by rewrite app_nil_r in H.
Qed.

(** *** Expiry *)

Lemma covered_initial : covered initial.
Proof. intros t Ht. by apply elem_of_nil in Ht. Qed.

Lemma covered_pushToast (k : ToastKind) (msg r : string) (st : State) :
  covered st → covered (pushToast k msg r st).
Proof.
  intros Hc t. simpl. rewrite elem_of_app, list_elem_of_singleton.
  intros [Ht| ->].
  - destruct (Hc t Ht) as (due & Hin & Hle). exists due.
    rewrite elem_of_app. auto.
  - exists (clock st + 3200). simpl.
    rewrite elem_of_app, list_elem_of_singleton. auto with lia.
Qed.

Lemma covered_advance (dt : Z) (st : State) :
  0 ≤ dt → covered st → covered (advance dt st).
Proof.
  intros Hdt Hc t. simpl. rewrite elem_of_expired. intros [Ht Hnot].
  destruct (Hc t Ht) as (due & Hin & Hle). exists due. split; [|lia].
  apply list_elem_of_filter. split; [|done]. simpl.
  intros Hdue. apply Hnot.
  apply list_elem_of_fmap. exists (due, id t). split; [done|].
  apply list_elem_of_filter. by split.
Qed.

Lemma covered_step (st : State) (e : Event) :
  event_ok e = true → covered st → covered (step st e).
Proof.
  intros He Hc. destruct e as [files settled r|k msg r|f| |dt]; simpl.
  - destruct files as [|f files]; [done|].
    destruct settled as [res|err]; simpl.
    + destruct (no_items res); [|done].
      intros t Ht. by apply (covered_pushToast info no_match_text r
        (set_total (total_or_0 (Api.total res))
           (set_results (default [] (Api.items res)) (set_isSearching true st)))).
    + intros t Ht. by apply (covered_pushToast error
        (str_or (err_message err) "Search failed") r (set_isSearching true st)).
  - by apply covered_pushToast.
  - done.
  - done.
  - apply covered_advance; [|done]. simpl in He. by apply bool_decide_eq_true in He.
Qed.

Lemma covered_run (st : State) (es : list Event) :
  forallb event_ok es = true → covered st → covered (run st es).
Proof.
  revert st. induction es as [|e es IH]; intros st Hes Hc; simpl; [done|].
  simpl in Hes. apply andb_true_iff in Hes as [He Hes].
  apply IH; [done|]. by apply covered_step.
Qed.

Lemma covered_expires (st : State) : covered st → toasts (advance 3200 st) = [].
Proof.
  intros Hc. apply elem_of_nil_inv. intros t. simpl.
  rewrite elem_of_expired. intros [Ht Hnot].
  destruct (Hc t Ht) as (due & Hin & Hle). apply Hnot.
  apply list_elem_of_fmap. exists (due, id t). split; [done|].
  apply list_elem_of_filter. by split.
Qed.

Lemma toast_kept_until_due (k : ToastKind) (msg r : string) (dt : Z) (st : State) :
  0 ≤ dt < 3200 →
  uid "toast" r ∉ snd <$> timers st →
  mkToast (uid "toast" r) k msg ∈ toasts (advance dt (pushToast k msg r st)).
Proof.
  intros Hdt Hfresh. simpl. rewrite elem_of_expired. split.
  - rewrite elem_of_app, list_elem_of_singleton. by right.
  - simpl. rewrite filter_app, fmap_app, elem_of_app.
    intros [Hin|Hin].
    + apply Hfresh. apply list_elem_of_fmap in Hin as ([due i] & -> & Hin).
      apply list_elem_of_filter in Hin as [_ Hin].
      apply list_elem_of_fmap. by exists (due, i).
    + rewrite filter_cons_False in Hin by (simpl; lia).
      by apply elem_of_nil in Hin.
Qed.

(** C9, amended. The identifier of every toast held is [toast_] followed by
    the first six radix-36 digits of a random draw, so the toasts held
    together have pairwise distinct identifiers whenever the draws behind
    them differ in those digits (nothing makes them differ).  Every toast
    held has a timer due at most 3200 ms ahead that removes it: once 3200 ms
    have passed with no new toast, the list is empty.  A toast whose
    identifier no pending timer bears stays in the list until its own timer
    fires. *)
Theorem toast_identifiers_and_expiry (es : list Event) :
  forallb event_ok es = true →
  (NoDup (token <$> draws es) → NoDup (id <$> toasts (run initial es)))
  ∧ (∀ t, t ∈ toasts (run initial es) →
          ∃ r, r ∈ draws es ∧ id t = uid "toast" r)
  ∧ toasts (advance 3200 (run initial es)) = []
  ∧ (∀ k msg r dt,
       0 ≤ dt < 3200 →
       uid "toast" r ∉ snd <$> timers (run initial es) →
       mkToast (uid "toast" r) k msg
         ∈ toasts (advance dt (pushToast k msg r (run initial es)))).
Proof.
  intros Hes.
  pose proof (run_toast_ids initial es) as Hsub. simpl in Hsub.
  split_and!.
  - intros Hnd. eapply sublist_NoDup; [|exact Hsub].
    change (uid "toast" <$> draws es)
      with ((λ t, "toast" +:+ "_" +:+ t) ∘ token <$> draws es).
    rewrite list_fmap_compose.
    apply NoDup_fmap_2_strong; [|done].
    intros x y _ _ Heq. apply append_inv_head in Heq.
    by apply (append_inv_head "_").
  - intros t Ht.
    assert (Hin : id t ∈ id <$> toasts (run initial es))
      by (by apply list_elem_of_fmap_2).
    apply (elem_of_sublist _ _ _ Hin) in Hsub.
    apply list_elem_of_fmap in Hsub as (r & Hid & Hr). by exists r.
  - apply covered_expires, covered_run; [done | apply covered_initial].
  - intros k msg r dt. apply toast_kept_until_due.
Qed.

End Toasts.

(** C9, as stated, fails: two draws that agree on their first six digits
    give two toasts with one identifier, held together; and the timer of the
    first then removes the second as well, here 2200 ms after it was
    raised. *)
Lemma toast_identifiers_collide :
  "0.abcdef123" ≠ "0.abcdef999"
  ∧ App.id <$> App.toasts
      (App.run App.initial
         [App.ToastRaised App.info "first" "0.abcdef123";
          App.ToastRaised App.info "second" "0.abcdef999"])
    = ["toast_abcdef"; "toast_abcdef"]
  ∧ App.toasts
      (App.run App.initial
         [App.ToastRaised App.info "first" "0.abcdef123";
          App.TimePasses 1000;
          App.ToastRaised App.info "second" "0.abcdef999";
          App.TimePasses 2199])
    = [App.mkToast "toast_abcdef" App.info "first";
       App.mkToast "toast_abcdef" App.info "second"]
  ∧ App.toasts
      (App.run App.initial
         [App.ToastRaised App.info "first" "0.abcdef123";
          App.TimePasses 1000;
          App.ToastRaised App.info "second" "0.abcdef999";
          App.TimePasses 2200])
    = [].
Proof. split_and!; done. Qed.

Lemma toast_identifiers_and_expiry_witness :
  forallb App.event_ok
    [App.ToastRaised App.info "first" "0.abcdef123"; App.TimePasses 1000;
     App.ToastRaised App.success "second" "0.zk41x9pq7"] = true
  ∧ NoDup (App.id <$> App.toasts
             (App.run App.initial
                [App.ToastRaised App.info "first" "0.abcdef123";
                 App.TimePasses 1000;
                 App.ToastRaised App.success "second" "0.zk41x9pq7"]))
  ∧ App.toasts
      (App.advance 3200
         (App.run App.initial
            [App.ToastRaised App.info "first" "0.abcdef123";
             App.TimePasses 1000;
             App.ToastRaised App.success "second" "0.zk41x9pq7"]))
    = []
  ∧ App.mkToast "toast_m2n8b5" App.error "third"
    ∈ App.toasts
        (App.advance 3199
           (App.pushToast App.error "third" "0.m2n8b5c1"
              (App.run App.initial
                 [App.ToastRaised App.info "first" "0.abcdef123";
                  App.TimePasses 1000;
                  App.ToastRaised App.success "second" "0.zk41x9pq7"]))).
Proof.
  pose proof (toast_identifiers_and_expiry
                [App.ToastRaised App.info "first" "0.abcdef123";
                 App.TimePasses 1000;
                 App.ToastRaised App.success "second" "0.zk41x9pq7"]
                eq_refl) as (Hids & _ & Hgone & Hkept).
  split_and!; [reflexivity | | exact Hgone |].
  - apply Hids. apply (bool_decide_unpack _). by vm_compute.
  - apply (Hkept App.error "third" "0.m2n8b5c1" 3199); [lia|].
    apply (bool_decide_unpack _). by vm_compute.
Defined.

(* ------------------------------------------------------------------ *)
(** ** The product route                                               *)
(* ------------------------------------------------------------------ *)

Section ProductRoute.
Import JS Api Samples.

Local Ltac Zify.zify_post_hook ::= Z.div_mod_to_equations.

(** *** Bytes and their escapes *)

Lemma escape_ok_byte (b : N) : (b < 256)%N → b ≠ 46%N → escape_ok b = true.
Proof.
  intros Hb Hne.
  assert (Hall : forallb (λ k, bool_decide (k = 46%N) || escape_ok k)
                   (N.of_nat <$> seq 0 256) = true) by (vm_compute; reflexivity).
  rewrite forallb_forall in Hall.
  specialize (Hall b). rewrite bool_decide_eq_false_2 in Hall by done.
  apply Hall. apply list_elem_of_In, list_elem_of_fmap.
  exists (N.to_nat b). split; [lia|]. apply elem_of_seq. lia.
Qed.

Lemma well_escaped_escape (h1 h2 : ascii) (r : string) :
  well_escaped (String "%" (String h1 (String h2 r)))
  = is_upper_hex h1 && is_upper_hex h2
    && negb ((code h1 =? 50) && (code h2 =? 69))%N && well_escaped r.
Proof. reflexivity. Qed.

Lemma percent_all_cons (b : N) (bs : list N) (t : string) :
  percent_all (b :: bs) +:+ t
  = String "%" (String (hex_upper (b / 16))
                  (String (hex_upper (b mod 16)) (percent_all bs +:+ t))).
Proof. reflexivity. Qed.

Lemma well_escaped_percent_all (bs : list N) (t : string) :
  Forall (λ b, (b < 256)%N ∧ b ≠ 46%N) bs →
  well_escaped (percent_all bs +:+ t) = well_escaped t.
Proof.
  induction 1 as [|b bs [Hb Hne] _ IH]; [done|].
  rewrite percent_all_cons, well_escaped_escape, IH.
  pose proof (escape_ok_byte b Hb Hne) as Hok. unfold escape_ok in Hok.
  by rewrite Hok.
Qed.

Lemma utf8_bytes (cp : N) :
  (cp < 1114112)%N → is_unescaped cp = false →
  Forall (λ b, (b < 256)%N ∧ b ≠ 46%N) (utf8 cp).
Proof.
  intros Hcp Hun. unfold utf8.
  pose proof (N.mod_lt cp 64 ltac:(done)) as H1.
  pose proof (N.mod_lt (cp / 64) 64 ltac:(done)) as H2.
  pose proof (N.mod_lt (cp / 4096) 64 ltac:(done)) as H3.
  set (m1 := (cp `mod` 64)%N) in *.
  set (m2 := ((cp / 64) `mod` 64)%N) in *.
  set (m3 := ((cp / 4096) `mod` 64)%N) in *.
  clearbody m1 m2 m3.
  destruct (N.ltb_spec cp 128); [|destruct (N.ltb_spec cp 2048);
    [|destruct (N.ltb_spec cp 65536)]].
  - constructor; [|constructor]. split; [lia|]. by intros ->.
  - repeat (constructor; [split; lia|]). constructor.
  - repeat (constructor; [split; lia|]). constructor.
  - repeat (constructor; [split; lia|]). constructor.
Qed.

Lemma unescaped_small (u : N) : is_unescaped u = true → (u < 127)%N ∧ u ≠ 37%N.
Proof.
  unfold is_unescaped, is_alnum. intros H.
  apply orb_true_iff in H as [H|H].
  - repeat (apply orb_true_iff in H as [H|H]);
      apply andb_true_iff in H as [H1 H2];
      apply N.leb_le in H1, H2; lia.
  - apply bool_decide_eq_true in H.
    repeat (apply elem_of_cons in H as [->|H]); try (split; [lia|done]).
    by apply elem_of_nil in H.
Qed.

(** *** The texts [encodeURIComponent] writes *)

Lemma encodeURIComponent_well_escaped (us : list N) (enc : string) :
  is_code_units us = true → encodeURIComponent us = Some enc →
  well_escaped enc = true.
Proof.
  remember (length us) as n eqn:Hn. revert us enc Hn.
  induction n as [n IH] using lt_wf_ind. intros us enc Hn Hcu Henc.
  destruct us as [|u rest]; simpl in *.
  { by injection Henc as <-. }
  apply andb_true_iff in Hcu as [Hu Hrest]. apply N.ltb_lt in Hu.
  destruct (is_unescaped u) eqn:Hun.
  - destruct (encodeURIComponent rest) as [enc'|] eqn:Hrec; [|done].
    injection Henc as <-.
    destruct (unescaped_small u Hun) as [Hlt Hne].
    simpl. unfold code. rewrite N_ascii_embedding by lia.
    rewrite (proj2 (N.eqb_neq u 37) Hne), Hun. simpl.
    apply (IH (length rest)) with rest; [lia | done | done | done].
  - destruct (is_high_surrogate u) eqn:Hhi.
    + destruct rest as [|lo rest']; [done|].
      destruct (is_low_surrogate lo) eqn:Hlo; [|done].
      destruct (encodeURIComponent rest') as [enc'|] eqn:Hrec; [|done].
      injection Henc as <-.
      simpl in Hrest. apply andb_true_iff in Hrest as [_ Hrest'].
      unfold is_high_surrogate in Hhi. unfold is_low_surrogate in Hlo.
      apply andb_true_iff in Hhi as [Hh1 Hh2].
      apply andb_true_iff in Hlo as [Hl1 Hl2].
      apply N.leb_le in Hh1, Hh2, Hl1, Hl2.
      rewrite well_escaped_percent_all.
      * apply (IH (length rest')) with rest'; [simpl in Hn; lia | done | done | done].
      * apply utf8_bytes; [lia|].
        apply not_true_iff_false. intros Hc%unescaped_small. lia.
    + destruct (is_low_surrogate u) eqn:Hlo; [done|].
      destruct (encodeURIComponent rest) as [enc'|] eqn:Hrec; [|done].
      injection Henc as <-.
      rewrite well_escaped_percent_all by (apply utf8_bytes; [lia | done]).
      apply (IH (length rest)) with rest; [lia | done | done | done].
Qed.

(** *** Such texts are one path segment *)

Lemma plain_char_code (c : ascii) :
  code c ≠ 47%N → code c ≠ 92%N → code c ≠ 63%N → code c ≠ 35%N → plain_char c.
Proof.
  intros H1 H2 H3 H4. unfold plain_char, is_path_sep, is_path_end.
  by rewrite !(proj2 (N.eqb_neq _ _)).
Qed.

Lemma unescaped_plain (c : ascii) : is_unescaped (code c) = true → plain_char c.
Proof.
  intros H. apply plain_char_code; intros E; by rewrite E in H.
Qed.

Lemma upper_hex_plain (c : ascii) : is_upper_hex c = true → plain_char c.
Proof.
  intros H. unfold is_upper_hex in H.
  apply plain_char_code; intros E; by rewrite E in H.
Qed.

Lemma percent_plain (c : ascii) : (code c =? 37)%N = true → plain_char c.
Proof.
  intros H%N.eqb_eq. apply plain_char_code; by rewrite H.
Qed.

Lemma well_escaped_plain (s : string) :
  well_escaped s = true → Forall plain_char (list_ascii_of_string s).
Proof.
  remember (String.length s) as n eqn:Hn. revert s Hn.
  induction n as [n IH] using lt_wf_ind. intros s Hn Hs.
  destruct s as [|c r]; [constructor|]. simpl in Hs, Hn.
  destruct (code c =? 37)%N eqn:Hc.
  - destruct r as [|h1 [|h2 r']]; [done | done |]. simpl in Hn.
    apply andb_true_iff in Hs as [Hs Hr'].
    apply andb_true_iff in Hs as [Hs _].
    apply andb_true_iff in Hs as [Hh1 Hh2]. simpl.
    constructor; [by apply percent_plain|].
    constructor; [by apply upper_hex_plain|].
    constructor; [by apply upper_hex_plain|].
    apply (IH (String.length r')); [lia | done | done].
  - apply andb_true_iff in Hs as [Hu Hr]. simpl.
    constructor; [by apply unescaped_plain|].
    apply (IH (String.length r)); [lia | done | done].
Qed.

Lemma plain_one_segment (s : string) :
  Forall plain_char (list_ascii_of_string s) →
  segments s = [s] ∧ path_only s = s.
Proof.
  induction s as [|c s IH]; simpl; [done|].
  intros H. apply Forall_cons in H as [[Hsep Hend] Hs].
  destruct (IH Hs) as [Hseg Hpath]. by rewrite Hsep, Hend, Hseg, Hpath.
Qed.

Lemma well_escaped_not_dot (s : string) :
  well_escaped s = true → s ≠ "." → s ≠ ".." →
  is_single_dot s = false ∧ is_double_dot s = false.
Proof.
  intros Hs H1 H2. unfold is_single_dot, is_double_dot.
  split; apply bool_decide_eq_false; intros Hin;
    repeat (apply elem_of_cons in Hin as [->|Hin]); try done;
    by apply elem_of_nil in Hin.
Qed.

Lemma url_path_products (enc : string) :
  well_escaped enc = true → enc ≠ "." → enc ≠ ".." →
  url_path ("/products/" +:+ enc) = ["products"; enc].
Proof.
  intros Hs H1 H2.
  destruct (plain_one_segment enc (well_escaped_plain enc Hs)) as [Hseg Hpath].
  destruct (well_escaped_not_dot enc Hs H1 H2) as [Hsingle Hdouble].
  unfold url_path. simpl. change ("" +:+ enc) with enc.
  rewrite Hpath, Hseg. simpl. by rewrite Hdouble, Hsingle.
Qed.

End ProductRoute.

Section ProductRequest.
Import JS Api Samples.

Variable API_BASE : string.
Variable Number_toString : number → string.
Variable network : Request → Outcome Response.


End ProductRequest.



(** An identifier with an unpaired surrogate makes [encodeURIComponent]
    throw: no request is made. *)
Lemma unpaired_surrogate_throws :
  JS.is_code_units [55357%N] = true
  ∧ Api.getProduct Samples.base Api.integer_toString
      (Samples.always Samples.rejection) [55357%N] None = None.
Proof. split; reflexivity. Qed.

(* ================================================================== *)
(** * Further properties of the client                                 *)
(* ================================================================== *)

Section BaseUrl.
Import JS Api.

Lemma append_nil_l (s : string) : "" +:+ s = s.
Proof. reflexivity. Qed.

Lemma append_cons (c : ascii) (s t : string) :
  String c s +:+ t = String c (s +:+ t).
Proof. reflexivity. Qed.

Lemma strip_trailing_slashes_decompose (s : string) :
  ∃ n, s = strip_trailing_slashes s +:+ slashes n.
Proof.
  induction s as [|c r [n IH]]; [by exists 0%nat|].
  simpl. destruct (strip_trailing_slashes r) as [|d r'] eqn:Hr.
  - rewrite append_nil_l in IH. destruct (code c =? 47)%N eqn:Hc.
    + exists (S n). rewrite append_nil_l. simpl. f_equal; [|done].
      apply N.eqb_eq in Hc. unfold code in Hc.
      rewrite <- (ascii_N_embedding c), Hc. reflexivity.
    + exists n. rewrite append_cons, append_nil_l. by f_equal.
  - exists n. rewrite append_cons. by f_equal.
Qed.

Lemma strip_trailing_slashes_end (s : string) :
  ends_with_slash (strip_trailing_slashes s) = false.
Proof.
  induction s as [|c r IH]; [done|].
  simpl. destruct (strip_trailing_slashes r) as [|d r'] eqn:Hr.
  - destruct (code c =? 47)%N eqn:Hc; simpl; [done | by rewrite Hc].
  - done.
Qed.

(** X1. The base URL is never empty and never ends with a slash.  When the
    variable is set and is more than slashes, the base is the variable
    without the run of slashes that ends it; otherwise it is the local
    default. *)
Theorem configured_base_normalised (env : option string) :
  configured_base env ≠ ""
  ∧ ends_with_slash (configured_base env) = false
  ∧ (∀ u, env = Some u → strip_trailing_slashes u ≠ "" →
       ∃ n, u = configured_base env +:+ slashes n)
  ∧ (env = None ∨ (∃ u, env = Some u ∧ strip_trailing_slashes u = "") →
       configured_base env = default_base).
Proof.
  split_and!.
  - destruct env as [u|]; [|done]. unfold configured_base, str_or.
    by destruct (decide (strip_trailing_slashes u = "")).
  - destruct env as [u|]; [|done]. unfold configured_base, str_or.
    destruct (decide (strip_trailing_slashes u = "")); [done|].
    apply strip_trailing_slashes_end.
  - intros u -> Hne. unfold configured_base, str_or.
    destruct (decide (strip_trailing_slashes u = "")); [done|].
    apply strip_trailing_slashes_decompose.
  - intros [->|(u & -> & Hu)]; [done|].
    unfold configured_base. by rewrite Hu.
Qed.

Lemma configured_base_normalised_witness :
  strip_trailing_slashes "https://api.example.com/v1//" ≠ ""
  ∧ (∃ n, "https://api.example.com/v1//"
          = configured_base (Some "https://api.example.com/v1//") +:+ slashes n)
  ∧ configured_base (Some "///") = default_base.
Proof.
  pose proof (configured_base_normalised (Some "https://api.example.com/v1//"))
    as (_ & _ & Hstrip & _).
  pose proof (configured_base_normalised (Some "///")) as (_ & _ & _ & Hdef).
  split_and!.
  - discriminate.
  - apply (Hstrip _ eq_refl). discriminate.
  - apply Hdef. right. by exists "///".
Defined.

End BaseUrl.

Section Calls.
Import JS Api Samples.

Variable API_BASE : string.
Variable Number_toString : number → string.
Variable network : Request → Outcome Response.

Abbreviation apiRequest := (apiRequest API_BASE Number_toString network).
Abbreviation search_request := (search_request API_BASE Number_toString).
Abbreviation uploadAndSearch := (uploadAndSearch API_BASE Number_toString network).
Abbreviation getHealth := (getHealth API_BASE Number_toString network).
Abbreviation getCategories := (getCategories API_BASE Number_toString network).
Abbreviation getTags := (getTags API_BASE Number_toString network).
Abbreviation precomputeEmbeddings :=
  (precomputeEmbeddings API_BASE Number_toString network).
Abbreviation getProduct := (getProduct API_BASE Number_toString network).
Abbreviation run := (run API_BASE Number_toString network).

Lemma apiRequest_sent (path : string) (m : string) (signal : option AbortSignal) :
  fst (apiRequest path
         {| opt_method := Some m; opt_headers := None; opt_body := None;
            opt_signal := signal |})
  = (if live signal then [plain_request API_BASE m path] else []).
Proof. by destruct signal as [[|reason]|]. Qed.

Lemma apiRequest_aborted (path : string) (opts : RequestOptions) (reason : Error) :
  opt_signal opts = Some (Aborted reason) →
  apiRequest path opts = ([], Rejected reason).
Proof. intros H. unfold Api.apiRequest. by rewrite H. Qed.

(** X2. Each call makes one attempt: with a signal that is not aborted (or
    none) exactly one request is sent, to the call's own method and path
    under the base URL; with an aborted signal nothing is sent and the call
    rejects with the signal's reason.  This holds for all six calls. *)
Theorem one_attempt_per_call (signal : option AbortSignal) (files : list File)
    (filters : option object) :
  fst (getHealth signal)
    = (if live signal then [plain_request API_BASE "GET" "/health"] else [])
  ∧ fst (getCategories signal)
    = (if live signal then [plain_request API_BASE "GET" "/categories"] else [])
  ∧ fst (getTags signal)
    = (if live signal then [plain_request API_BASE "GET" "/tags"] else [])
  ∧ fst (precomputeEmbeddings signal)
    = (if live signal then [plain_request API_BASE "POST" "/precompute"] else [])
  ∧ fst (uploadAndSearch files filters signal)
    = (if live signal then [search_request files filters] else [])
  ∧ (∀ id path, product_path id = Some path →
       fst <$> getProduct id signal
       = Some (if live signal then [plain_request API_BASE "GET" path] else []))
  ∧ (∀ reason, signal = Some (Aborted reason) →
       snd (getHealth signal) = Rejected reason
       ∧ snd (getCategories signal) = Rejected reason
       ∧ snd (getTags signal) = Rejected reason
       ∧ snd (precomputeEmbeddings signal) = Rejected reason
       ∧ snd (uploadAndSearch files filters signal) = Rejected reason
       ∧ (∀ id, is_Some (product_path id) →
            snd <$> getProduct id signal = Some (Rejected reason))).
Proof.
  split_and!; try apply apiRequest_sent.
  - by destruct signal as [[|reason]|].
  - intros id path Hpath. unfold Api.getProduct. rewrite Hpath. simpl.
    f_equal. apply apiRequest_sent.
  - intros reason ->. split_and!; try done.
    intros id [path Hpath]. unfold Api.getProduct. by rewrite Hpath.
Qed.

(** X3. How a call settles otherwise.  A failure of the network is passed
    on as it is.  On a 2xx answer a call made through [apiRequest] always
    resolves, with the parsed body, or with [null] when the body is not
    JSON; [uploadAndSearch] settles as [res.json()] does, so it rejects on
    such a body. *)
Theorem settles_with_the_answer (path : string) (opts : RequestOptions)
    (files : list File) (filters : option object) (signal : option AbortSignal) :
  live (opt_signal opts) = true → live signal = true →
  (∀ e, (∀ req, network req = Rejected e) →
        snd (apiRequest path opts) = Rejected e
        ∧ snd (uploadAndSearch files filters signal) = Rejected e)
  ∧ (∀ res, (∀ req, network req = Resolved res) → ok res = true →
        snd (apiRequest path opts) = Resolved (payload_of res)
        ∧ (∀ e, json res = Rejected e → snd (apiRequest path opts) = Resolved Null)
        ∧ snd (uploadAndSearch files filters signal) = json res).
Proof.
  intros Hopts Hsig. split.
  - intros e Hnet. unfold Api.apiRequest, Api.uploadAndSearch.
    by rewrite !fetch_live, !Hnet.
  - intros res Hnet Hok. unfold Api.apiRequest, Api.uploadAndSearch.
    rewrite !fetch_live, !Hnet by done. simpl. rewrite Hok. simpl.
    split_and!; try done.
    intros e He. unfold payload_of. by rewrite He.
Qed.

(** X4. [withAbort]: [cancel] is idempotent and keeps the first reason.  A
    run given files and filters after [cancel] sends nothing.  A run given
    the files alone takes no notice of the controller: cancelled or not, it
    is the search without filters and without signal. *)
Theorem run_and_cancel (controller : AbortSignal) (files : list File)
    (filters : option object) :
  cancel (cancel controller) = cancel controller
  ∧ (∃ reason, cancel controller = Aborted reason
               ∧ (controller = Live → reason = AbortError))
  ∧ fst (run (cancel controller) (FilesAndFilters files filters)) = []
  ∧ run (cancel controller) (FilesOnly files) = uploadAndSearch files None None
  ∧ run controller (FilesOnly files) = uploadAndSearch files None None.
Proof.
  split_and!.
  - by destruct controller.
  - destruct controller as [|r]; [by exists AbortError | by exists r].
  - by destruct controller.
  - reflexivity.
  - reflexivity.
Qed.

End Calls.

Lemma settles_with_the_answer_witness :
  Api.ok (Api.mkResponse 204 "No Content" (Api.Resolved "")
            (Api.Rejected (Api.mkError "SyntaxError" "Unexpected end of JSON input")))
  = true
  ∧ snd (Api.getHealth Samples.base Api.integer_toString
           (Samples.always
              (Api.mkResponse 204 "No Content" (Api.Resolved "")
                 (Api.Rejected
                    (Api.mkError "SyntaxError" "Unexpected end of JSON input"))))
           None)
    = Api.Resolved JS.Null
  ∧ snd (Api.uploadAndSearch Samples.base Api.integer_toString
           (Samples.always
              (Api.mkResponse 204 "No Content" (Api.Resolved "")
                 (Api.Rejected
                    (Api.mkError "SyntaxError" "Unexpected end of JSON input"))))
           [Samples.photo "a.png"] None None)
    = Api.Rejected (Api.mkError "SyntaxError" "Unexpected end of JSON input").
Proof.
  pose proof (settles_with_the_answer Samples.base Api.integer_toString
    (Samples.always
       (Api.mkResponse 204 "No Content" (Api.Resolved "")
          (Api.Rejected (Api.mkError "SyntaxError" "Unexpected end of JSON input"))))
    "/health" (Api.mkOptions (Some "GET") None None None)
    [Samples.photo "a.png"] None None eq_refl eq_refl) as [_ H].
  destruct (H _ (λ _, eq_refl) eq_refl) as (_ & Hnull & Hjson).
  split_and!; [reflexivity | exact (Hnull _ eq_refl) | exact Hjson].
Defined.

Lemma one_attempt_per_call_witness :
  Api.product_path (JS.units "p1") = Some "/products/p1"
  ∧ fst <$> Api.getProduct Samples.base Api.integer_toString
              (Samples.always Samples.rejection) (JS.units "p1") None
    = Some [Api.plain_request Samples.base "GET" "/products/p1"]
  ∧ snd (Api.getTags Samples.base Api.integer_toString
           (Samples.always Samples.rejection)
           (Some (Api.Aborted Api.AbortError)))
    = Api.Rejected Api.AbortError.
Proof.
  pose proof (one_attempt_per_call Samples.base Api.integer_toString
                (Samples.always Samples.rejection) None [] None)
    as (_ & _ & _ & _ & _ & Hp & _).
  pose proof (one_attempt_per_call Samples.base Api.integer_toString
                (Samples.always Samples.rejection)
                (Some (Api.Aborted Api.AbortError)) [] None)
    as (_ & _ & _ & _ & _ & _ & Ha).
  split_and!; [reflexivity | exact (Hp (JS.units "p1") "/products/p1" eq_refl) |].
  exact (proj1 (proj2 (proj2 (Ha Api.AbortError eq_refl)))).
Defined.

Lemma run_and_cancel_witness :
  Api.cancel Api.Live = Api.Aborted Api.AbortError.
Proof.
  destruct (run_and_cancel Samples.base Api.integer_toString
              (Samples.always Samples.rejection) Api.Live [] None)
    as (_ & (reason & Hc & Hr) & _).
  rewrite Hc. f_equal. by apply Hr.
Defined.

Section SearchBody.
Import JS Api App FilterPanel Samples.

Variable Number_toString : number → string.

Abbreviation buildSearchForm := (buildSearchForm Number_toString).
Abbreviation JSON_stringify := (JSON_stringify Number_toString).
Abbreviation JSON_member := (JSON_member Number_toString).
Abbreviation JSON_number := (JSON_number Number_toString).

(** *** Texts *)

Lemma length_append (a b : string) :
  String.length (a +:+ b) = (String.length a + String.length b)%nat.
Proof. induction a as [|c a IH]; simpl; [done | by rewrite IH]. Qed.

Lemma append_inv_tail (a b t : string) : a +:+ t = b +:+ t → a = b.
Proof.
  revert b. induction a as [|c a IH]; intros [|d b] H; simpl in H.
  - done.
  - apply (f_equal String.length) in H.
    rewrite !length_append in H. simpl in H. lia.
  - apply (f_equal String.length) in H.
    rewrite !length_append in H. simpl in H. lia.
  - injection H as -> H. f_equal. by apply IH.
Qed.

(** *** The names of the uploads *)

(** X5. In the body of a search, the entry of rank [i] is the file of rank
    [i] under the name the file has, or [image_<i>.jpg] when it has none:
    the name sent is never empty, and two files without a name never get the
    same one. *)
Theorem upload_names (files : list File) (filters : option object)
    (i j : nat) (f g : File) :
  files !! i = Some f → files !! j = Some g →
  buildSearchForm files filters !! i
    = Some ("files", FileEntry f (upload_name i f))
  ∧ upload_name i f ≠ ""
  ∧ (name f ≠ "" → upload_name i f = name f)
  ∧ (i ≠ j → name f = "" → name g = "" → upload_name i f ≠ upload_name j g).
Proof.
  intros Hf Hg. split_and!.
  - rewrite buildSearchForm_entries.
    rewrite lookup_app_l
      by (rewrite length_imap; by apply lookup_lt_Some in Hf).
    rewrite list_lookup_imap, Hf. done.
  - unfold upload_name, str_or. by destruct (decide (name f = "")).
  - intros Hn. unfold upload_name, str_or. by destruct (decide (name f = "")).
  - intros Hij Hnf Hng. unfold upload_name, str_or. rewrite Hnf, Hng. simpl.
    intros H. apply (append_inv_head "image_") in H.
    apply append_inv_tail in H. by apply (inj pretty) in H.
Qed.

(** *** The text of the filters *)

Lemma JSON_stringify_Obj (o : object) :
  JSON_stringify (Obj o)
  = Some ("{" +:+ String.concat "," (omap JSON_member o) +:+ "}").
Proof.
  simpl. do 4 f_equal.
  induction o as [|[k x] o IH]; [done|].
  unfold JS.JSON_member in *. simpl.
  destruct (JS.JSON_stringify Number_toString x); simpl; by rewrite IH.
Qed.

Lemma JSON_member_Undefined (k : string) : JSON_member (k, Undefined) = None.
Proof. reflexivity. Qed.

Lemma JSON_member_Str (k s : string) :
  JSON_member (k, Str s) = Some (json_quote k +:+ ":" +:+ json_quote s).
Proof. reflexivity. Qed.

Lemma JSON_member_Bool (k : string) (b : bool) :
  JSON_member (k, Bool b)
  = Some (json_quote k +:+ ":" +:+ (if b then "true" else "false")).
Proof. reflexivity. Qed.

Lemma JSON_member_numbers (k : string) (a b : number) :
  JSON_member (k, Arr [Num a; Num b])
  = Some (json_quote k +:+ ":" +:+ "["
          +:+ String.concat "," [JSON_number a; JSON_number b] +:+ "]").
Proof. by destruct a, b. Qed.

Lemma JSON_stringify_strings (l : list string) :
  JSON_stringify (Arr (Str <$> l))
  = Some ("[" +:+ String.concat "," (json_quote <$> l) +:+ "]").
Proof.
  cbn [JS.JSON_stringify]. do 4 f_equal.
  induction l as [|x l IH]; [done|].
  rewrite !fmap_cons. change (map ?g (?x :: ?r)) with (g x :: map g r).
  by f_equal.
Qed.

Lemma JSON_member_strings (k : string) (l : list string) :
  JSON_member (k, Arr (Str <$> l))
  = Some (json_quote k +:+ ":" +:+ "["
          +:+ String.concat "," (json_quote <$> l) +:+ "]").
Proof.
  unfold JS.JSON_member. cbn [fst snd]. by rewrite JSON_stringify_strings.
Qed.

(** X6. The text of the filters the root component sends with a search.
    It is a JSON object that always has, in this order, [price] (its two
    bounds, [null] for one that is not finite), [colors], [inStock],
    [detectedTags] and [sort]; before them comes [query] unless the query
    is empty, then [category] unless it is [null].  The body holds this
    text, once. *)
Theorem filters_text (files : list File) (f : FilterState) :
  JSON_stringify (Obj (toApiFilters f))
  = Some ("{" +:+ String.concat ","
            ((if decide (query f = "") then []
              else [json_quote "query" +:+ ":" +:+ json_quote (query f)])
             ++ match category f with
                | Some c => [json_quote "category" +:+ ":" +:+ json_quote c]
                | None => []
                end
             ++ [ json_quote "price" +:+ ":" +:+ "["
                  +:+ String.concat ","
                        [JSON_number (fst (price f)); JSON_number (snd (price f))]
                  +:+ "]";
                  json_quote "colors" +:+ ":" +:+ "["
                  +:+ String.concat "," (json_quote <$> colors f) +:+ "]";
                  json_quote "inStock" +:+ ":"
                  +:+ (if inStock f then "true" else "false");
                  json_quote "detectedTags" +:+ ":" +:+ "["
                  +:+ String.concat "," (json_quote <$> detectedTags f) +:+ "]";
                  json_quote "sort" +:+ ":" +:+ json_quote (sort_name (sort f)) ])
          +:+ "}")
  ∧ FormData_getAll "filters" (buildSearchForm files (Some (toApiFilters f)))
    = [TextEntry (default "undefined" (JSON_stringify (Obj (toApiFilters f))))].
Proof.
  split; [|by rewrite (proj2 (getAll_buildSearchForm Number_toString files
                                (Some (toApiFilters f))))].
  rewrite JSON_stringify_Obj. do 3 f_equal.
  unfold toApiFilters. cbn [omap list_omap].
  rewrite JSON_member_numbers, !JSON_member_strings, JSON_member_Bool,
    JSON_member_Str.
  destruct (decide (query f = "")), (category f);
    rewrite ?JSON_member_Undefined, ?JSON_member_Str; reflexivity.
Qed.

End SearchBody.

Lemma upload_names_witness :
  [Samples.photo ""; Samples.photo "shoe.png"; Samples.photo ""] !! 0%nat
  = Some (Samples.photo "")
  ∧ [Samples.photo ""; Samples.photo "shoe.png"; Samples.photo ""] !! 2%nat
    = Some (Samples.photo "")
  ∧ Api.upload_name 0 (Samples.photo "") = "image_0.jpg"
  ∧ Api.upload_name 0 (Samples.photo "") ≠ Api.upload_name 2 (Samples.photo "").
Proof.
  destruct (upload_names Api.integer_toString
              [Samples.photo ""; Samples.photo "shoe.png"; Samples.photo ""]
              None 0 2 (Samples.photo "") (Samples.photo "") eq_refl eq_refl)
    as (_ & _ & _ & H).
  split_and!; [reflexivity | reflexivity | reflexivity |].
  apply H; [lia | reflexivity | reflexivity].
Defined.

(* ================================================================== *)
(** * Further properties of the filter panel                           *)
(* ================================================================== *)

Section FilterPanelMore.
Import JS FilterPanel.

Lemma toggle_NoDup (x : string) (xs : list string) :
  NoDup xs → NoDup (toggle x xs).
Proof.
  intros Hnd. destruct (decide (x ∈ xs)) as [Hin|Hnin].
  - rewrite toggle_present by done. by apply NoDup_filter.
  - rewrite toggle_absent by done. apply NoDup_app. split_and!; [done | |].
    + intros y Hy ->%list_elem_of_singleton. done.
    + apply NoDup_singleton.
Qed.

Lemma step_selections (s : FilterState) (e : Event) :
  NoDup (colors s) ∧ NoDup (detectedTags s) →
  NoDup (colors (step s e)) ∧ NoDup (detectedTags (step s e)).
Proof.
  intros [Hc Ht].
  destruct e; simpl; try done; split; try done;
    try (by apply toggle_NoDup); apply NoDup_nil_2.
Qed.

(** X7. The selected colors and the selected tags never hold a value twice:
    from a state without duplicates, whatever the user does, every state the
    panel emits is without duplicates. *)
Theorem selections_without_duplicates (s0 : FilterState) (es : list Event) :
  NoDup (colors s0) → NoDup (detectedTags s0) →
  Forall (λ s, NoDup (colors s) ∧ NoDup (detectedTags s)) (emitted s0 es).
Proof.
  intros Hc Ht. assert (H0 : NoDup (colors s0) ∧ NoDup (detectedTags s0)) by done.
  clear Hc Ht. revert s0 H0.
  induction es as [|e es IH]; intros s0 H0; simpl.
  - by constructor.
  - constructor; [done|]. apply IH. by apply step_selections.
Qed.

Lemma selections_without_duplicates_witness :
  NoDup (colors DEFAULTS) ∧ NoDup (detectedTags DEFAULTS)
  ∧ Forall (λ s, NoDup (colors s) ∧ NoDup (detectedTags s))
      (emitted DEFAULTS
         [ClickColor "#ef4444"; ClickColor "#111827"; ClickColor "#ef4444";
          ClickTag "shoe"; ClickClear; ClickTag "shoe"]).
Proof.
  assert (H1 : NoDup (colors DEFAULTS)) by apply NoDup_nil_2.
  assert (H2 : NoDup (detectedTags DEFAULTS)) by apply NoDup_nil_2.
  split_and!; [exact H1 | exact H2 |].
  exact (selections_without_duplicates DEFAULTS _ H1 H2).
Defined.

(** X8. Every handler changes the one field it is for: after any event but
    "Clear all", each field that is not the event's own is as before ("Clear
    all" gives the defaults). *)
Theorem handlers_change_one_field (s : FilterState) (e : Event) :
  step s ClickClear = DEFAULTS
  ∧ (e ≠ ClickClear →
     ((∀ v, e ≠ TypeQuery v) → query (step s e) = query s)
     ∧ ((∀ v, e ≠ SelectCategory v) → category (step s e) = category s)
     ∧ ((∀ t, e ≠ TypeMin t) → fst (price (step s e)) = fst (price s))
     ∧ ((∀ t, e ≠ TypeMax t) → snd (price (step s e)) = snd (price s))
     ∧ ((∀ h, e ≠ ClickColor h) → colors (step s e) = colors s)
     ∧ ((∀ t, e ≠ ClickTag t) → detectedTags (step s e) = detectedTags s)
     ∧ ((∀ b, e ≠ CheckStock b) → inStock (step s e) = inStock s)
     ∧ ((∀ k, e ≠ SelectSort k) → sort (step s e) = sort s)).
Proof.
  split; [done|]. intros Hclear.
  destruct e; try done; split_and!; intros H; try done;
    exfalso; by eapply H.
Qed.

Lemma handlers_change_one_field_witness :
  ClickColor "#ef4444" ≠ ClickClear
  ∧ query (step DEFAULTS (ClickColor "#ef4444")) = query DEFAULTS
  ∧ price (step DEFAULTS (ClickColor "#ef4444")) = price DEFAULTS.
Proof.
  assert (Hne : ClickColor "#ef4444" ≠ ClickClear) by discriminate.
  destruct (handlers_change_one_field DEFAULTS (ClickColor "#ef4444"))
    as [_ H].
  destruct (H Hne) as (Hq & _ & Hmin & Hmax & _).
  split_and!; [exact Hne | apply Hq; discriminate |].
  apply injective_projections; [apply Hmin | apply Hmax]; discriminate.
Defined.

Lemma step_category (s : FilterState) (e : Event) :
  category s ≠ Some "" → category (step s e) ≠ Some "".
Proof.
  intros Hs. destruct e as [t|v|t|t|h|t|b|k|]; simpl; try done.
  destruct (decide (v = "")); [done | congruence].
Qed.

(** X9. The category is never the empty text: choosing the entry "All"
    stores [null], so from a state whose category is not the empty text
    every emitted state has a category that is [null] or a non-empty
    text. *)
Theorem category_never_empty (s0 : FilterState) (es : list Event) :
  category s0 ≠ Some "" →
  category (step s0 (SelectCategory "")) = None
  ∧ Forall (λ s, category s ≠ Some "") (emitted s0 es).
Proof.
  intros H0. split; [done|]. revert s0 H0.
  induction es as [|e es IH]; intros s0 H0; simpl.
  - by constructor.
  - constructor; [done|]. apply IH. by apply step_category.
Qed.

Lemma category_never_empty_witness :
  category DEFAULTS ≠ Some ""
  ∧ Forall (λ s, category s ≠ Some "")
      (emitted DEFAULTS [SelectCategory "shoes"; SelectCategory ""; ClickClear]).
Proof.
  assert (H0 : category DEFAULTS ≠ Some "") by discriminate.
  split; [exact H0|].
  exact (proj2 (category_never_empty DEFAULTS _ H0)).
Defined.


(** X11. The interval shown in the price label is made of the two stored
    bounds: in the stored order when the minimum is below the maximum,
    swapped when it is above, and twice [NaN] when a bound is [NaN]. *)
Theorem minMax_bounds (s : FilterState) :
  (interval_ordered (price s) = true → minMax s = price s)
  ∧ (price_defined s = true → interval_ordered (price s) = false →
       minMax s = (snd (price s), fst (price s)))
  ∧ (price_defined s = false → minMax s = (NaN, NaN)).
Proof.
  unfold interval_ordered, price_defined, minMax.
  destruct (price s) as [lo hi]. simpl. split_and!.
  - intros H. unfold Math_min, Math_max.
    destruct lo as [a|[]|], hi as [b|[]|]; simpl in *; try done.
    by rewrite H.
  - intros Hd H. unfold Math_min, Math_max.
    destruct lo as [a|[]|], hi as [b|[]|]; simpl in *; try done.
    by rewrite H.
  - intros Hd. by destruct lo as [a|[]|], hi as [b|[]|].
Qed.

Lemma minMax_bounds_witness :
  interval_ordered (price (step DEFAULTS (TypeMin "2000"))) = false
  ∧ minMax (step DEFAULTS (TypeMin "2000")) = (Fin 1000, Fin 2000).
Proof.
  destruct (minMax_bounds (step DEFAULTS (TypeMin "2000"))) as (_ & H & _).
  split; [reflexivity|].
  exact (H eq_refl eq_refl).
Defined.

End FilterPanelMore.

(* ================================================================== *)
(** * Further properties of the upload component                       *)
(* ================================================================== *)

Section ImageUploadMore.
Import Api ImageUpload.
Local Open Scope nat_scope.

Lemma handleFiles_previews (files : list File) (c : Component) :
  length (previews c) ≤ 6 →
  previews (handleFiles files c)
  = take 6 (seq (next_url c) (length files) ++ previews c).
Proof.
  intros Hlen. destruct files as [|f files]; [|done].
  simpl. by rewrite take_ge.
Qed.

Lemma handleFiles_next_url (files : list File) (c : Component) :
  next_url (handleFiles files c) = next_url c + length files.
Proof. destruct files; simpl; [lia | done]. Qed.

Lemma handleFiles_capped (files : list File) (c : Component) :
  length (previews c) ≤ 6 → length (previews (handleFiles files c)) ≤ 6.
Proof.
  intros Hlen. rewrite handleFiles_previews by done. rewrite length_take. lia.
Qed.

Lemma take_app_take {A} (n : nat) (xs ys : list A) :
  take n (xs ++ take n ys) = take n (xs ++ ys).
Proof.
  rewrite !take_app. f_equal. rewrite take_take. f_equal. lia.
Qed.

Lemma play_previews (batches : list (list File)) (c : Component) :
  length (previews c) ≤ 6 →
  previews (play c batches)
  = take 6 (concat (reverse (batch_urls (next_url c) batches)) ++ previews c)
  ∧ next_url (play c batches) = next_url c + length (concat batches).
Proof.
  revert c. induction batches as [|files rest IH]; intros c Hlen.
  - simpl. rewrite take_ge by done. split; [done | lia].
  - change (play c (files :: rest)) with (play (handleFiles files c) rest).
    destruct (IH (handleFiles files c)) as [IHp IHn];
      [by apply handleFiles_capped|].
    rewrite IHp, IHn, handleFiles_next_url, handleFiles_previews by done.
    split.
    + rewrite take_app_take. cbn [batch_urls]. rewrite reverse_cons, concat_app.
      simpl. by rewrite app_nil_r, <- app_assoc.
    + simpl. rewrite length_app. lia.
Qed.

(** *** The effects of one batch *)

Lemma created_app (t1 t2 : list Effect) :
  created (t1 ++ t2) = created t1 ++ created t2.
Proof. apply omap_app. Qed.

Lemma revoked_app (t1 t2 : list Effect) :
  revoked (t1 ++ t2) = revoked t1 ++ revoked t2.
Proof. apply omap_app. Qed.

Lemma forwarded_app (t1 t2 : list Effect) :
  forwarded (t1 ++ t2) = forwarded t1 ++ forwarded t2.
Proof. apply omap_app. Qed.

Lemma effects_of_creation (us : list ObjectURL) :
  created (createObjectURL <$> us) = us
  ∧ revoked (createObjectURL <$> us) = []
  ∧ forwarded (createObjectURL <$> us) = [].
Proof.
  unfold created, revoked, forwarded.
  induction us as [|u us (H1 & H2 & H3)]; [done|].
  cbn. by rewrite H1.
Qed.

Lemma effects_of_cleanup (us : list ObjectURL) :
  created (cleanup us) = []
  ∧ revoked (cleanup us) = us
  ∧ forwarded (cleanup us) = [].
Proof.
  unfold cleanup, created, revoked, forwarded.
  induction us as [|u us (H1 & H2 & H3)]; [done|].
  cbn. by rewrite H2.
Qed.

Lemma handleFiles_effects (files : list File) (c : Component) :
  created (trace (handleFiles files c))
  = created (trace c) ++ seq (next_url c) (length files)
  ∧ forwarded (trace (handleFiles files c))
    = forwarded (trace c) ++ (if decide (length files ≠ 0) then [files] else [])
  ∧ revoked (trace (handleFiles files c))
    = revoked (trace c) ++ (if decide (length files ≠ 0) then previews c else []).
Proof.
  destruct files as [|f files].
  - simpl. by rewrite !app_nil_r.
  - rewrite decide_True by done.
    cbn [handleFiles trace].
    rewrite !created_app, !forwarded_app, !revoked_app.
    destruct (effects_of_creation (seq (next_url c) (length (f :: files))))
      as (-> & -> & ->).
    destruct (effects_of_cleanup (previews c)) as (-> & -> & ->).
    simpl. by rewrite !app_nil_r.
Qed.

Lemma play_cons (c : Component) (files : list File) (rest : list (list File)) :
  play c (files :: rest) = play (handleFiles files c) rest.
Proof. done. Qed.

Lemma play_effects (batches : list (list File)) (c : Component) :
  created (trace (play c batches))
  = created (trace c) ++ seq (next_url c) (length (concat batches))
  ∧ forwarded (trace (play c batches))
    = forwarded (trace c) ++ filter (λ files, length files ≠ 0) batches.
Proof.
  revert c. induction batches as [|files rest IH]; intros c.
  - simpl. by rewrite !app_nil_r.
  - rewrite play_cons. destruct (IH (handleFiles files c)) as [-> ->].
    destruct (handleFiles_effects files c) as (-> & -> & _).
    rewrite handleFiles_next_url. split.
    + simpl. rewrite length_app, seq_app, <- app_assoc. done.
    + rewrite <- app_assoc. f_equal.
      destruct (decide (length files ≠ 0)) as [Hne|He].
      * by rewrite filter_cons_True.
      * by rewrite filter_cons_False.
Qed.

(** *** The URLs of the batches *)

Lemma batch_urls_concat (batches : list (list File)) (start : nat) :
  concat (batch_urls start batches) = seq start (length (concat batches)).
Proof.
  revert start. induction batches as [|files rest IH]; intros start; [done|].
  simpl. by rewrite IH, length_app, seq_app.
Qed.

Lemma batch_urls_range (batches : list (list File)) (start : nat)
    (us : list ObjectURL) (u : ObjectURL) :
  us ∈ batch_urls start batches → u ∈ us →
  start ≤ u < start + length (concat batches).
Proof.
  intros Hus Hu. apply elem_of_seq. rewrite <- batch_urls_concat.
  apply list_elem_of_In, in_concat. exists us. by rewrite <- !list_elem_of_In.
Qed.


Lemma batch_urls_apart (batches : list (list File)) (start : nat)
    (us us' : list ObjectURL) (u : ObjectURL) :
  us ∈ batch_urls start batches → us' ∈ batch_urls start batches →
  u ∈ drop 6 us → u ∈ take 6 us' → False.
Proof.
  revert start. induction batches as [|files rest IH]; intros start Hus Hus' Hd Ht.
  - by apply elem_of_nil in Hus.
  - cbn [batch_urls] in Hus, Hus'.
    apply elem_of_cons in Hus as [->|Hus]; apply elem_of_cons in Hus' as [->|Hus'].
    + rewrite drop_seq in Hd. rewrite take_seq in Ht.
      apply elem_of_seq in Hd, Ht. lia.
    + apply subseteq_drop, elem_of_seq in Hd. apply subseteq_take in Ht.
      pose proof (batch_urls_range _ _ _ _ Hus' Ht). lia.
    + apply subseteq_drop in Hd. apply subseteq_take, elem_of_seq in Ht.
      pose proof (batch_urls_range _ _ _ _ Hus Hd). lia.
    + by apply (IH (start + length files)).
Qed.

(** *** The previews held *)

Lemma handleFiles_fresh (files : list File) (c : Component) :
  NoDup (previews c) ∧ (∀ u, u ∈ previews c → u < next_url c) →
  NoDup (previews (handleFiles files c))
  ∧ (∀ u, u ∈ previews (handleFiles files c) → u < next_url (handleFiles files c)).
Proof.
  intros [Hnd Hlt]. destruct files as [|f files]; [done|].
  cbn [handleFiles previews next_url].
  set (n := length (f :: files)). split.
  - eapply sublist_NoDup; [|apply sublist_take].
    apply NoDup_app. split_and!; [apply NoDup_seq | | done].
    intros u Hu%elem_of_seq Hp%Hlt. lia.
  - intros u Hu%subseteq_take. apply elem_of_app in Hu as [Hu%elem_of_seq|Hu%Hlt]; lia.
Qed.

Lemma play_fresh (batches : list (list File)) (c : Component) :
  NoDup (previews c) ∧ (∀ u, u ∈ previews c → u < next_url c) →
  NoDup (previews (play c batches))
  ∧ (∀ u, u ∈ previews (play c batches) → u < next_url (play c batches)).
Proof.
  revert c. induction batches as [|files rest IH]; intros c Hc; [done|].
  rewrite play_cons. by apply IH, handleFiles_fresh.
Qed.

(** *** What is revoked *)

Lemma revoked_unmount (c : Component) :
  revoked (unmount c) = revoked (trace c) ++ previews c.
Proof.
  unfold unmount. rewrite revoked_app.
  by destruct (effects_of_cleanup (previews c)) as (_ & -> & _).
Qed.

Lemma elem_of_take_app (u : ObjectURL) (us p : list ObjectURL) :
  (u ∈ take 6 us → u ∈ take 6 (us ++ p))
  ∧ (u ∈ take 6 (us ++ p) → u ∈ take 6 us ∨ u ∈ p).
Proof.
  rewrite take_app, elem_of_app. split; [by left|].
  intros [H|H%subseteq_take]; [by left | by right].
Qed.

Lemma revoked_play (batches : list (list File)) (c : Component) (u : ObjectURL) :
  u ∈ revoked (unmount (play c batches))
  ↔ u ∈ revoked (trace c) ∨ u ∈ previews c
    ∨ ∃ us, us ∈ batch_urls (next_url c) batches ∧ u ∈ take 6 us.
Proof.
  revert c. induction batches as [|files rest IH]; intros c.
  - cbn [play foldl batch_urls]. rewrite revoked_unmount, elem_of_app.
    split; [intros [H|H]; [by left | by right; left]|].
    intros [H|[H|(us & Hus & _)]]; [by left | by right |].
    by apply elem_of_nil in Hus.
  - rewrite play_cons, IH. clear IH. cbn [batch_urls].
    destruct files as [|f files].
    + cbn [handleFiles length]. rewrite Nat.add_0_r.
      split; (intros [H|[H|(us & Hus & Hu)]]; [by left | by right; left |]);
        right; right.
      * exists us. split; [by apply elem_of_cons; right | done].
      * apply elem_of_cons in Hus as [->|Hus]; [by apply elem_of_nil in Hu|].
        by exists us.
    + destruct (handleFiles_effects (f :: files) c) as (_ & _ & ->).
      rewrite decide_True by done.
      cbn [handleFiles previews next_url].
      set (urls := seq (next_url c) (length (f :: files))).
      destruct (elem_of_take_app u urls (previews c)) as [Hin Hout].
      rewrite elem_of_app. split.
      * intros [[H|H]|[H|(us & Hus & Hu)]]; [by left | by right; left | |].
        -- destruct (Hout H) as [H'|H']; [|by right; left].
           right; right. exists urls. split; [by apply elem_of_cons; left | done].
        -- right; right. exists us. split; [by apply elem_of_cons; right | done].
      * intros [H|[H|(us & Hus & Hu)]]; [by left; left | by left; right |].
        apply elem_of_cons in Hus as [->|Hus].
        -- right; left. by apply Hin.
        -- right; right. by exists us.
Qed.

(** X12. The previews are the newest six URLs, newest batch first and each
    batch in the order of its files: never more than six, never one twice,
    and each of them was created by the component. *)
Theorem previews_newest_six (batches : list (list File)) :
  previews (play mount batches)
  = take 6 (concat (reverse (batch_urls 0 batches)))
  ∧ length (previews (play mount batches)) ≤ 6
  ∧ NoDup (previews (play mount batches))
  ∧ previews (play mount batches) ⊆ created (trace (play mount batches)).
Proof.
  destruct (play_previews batches mount) as [Hp Hn]; [simpl; lia|].
  destruct (play_fresh batches mount) as [Hnd Hlt].
  { split; [apply NoDup_nil_2 | by intros u Hu%elem_of_nil]. }
  destruct (play_effects batches mount) as [Hc _].
  split_and!; [| |done|].
  - by rewrite Hp, app_nil_r.
  - rewrite Hp, length_take. lia.
  - intros u Hu. rewrite Hc. simpl. apply elem_of_seq.
    specialize (Hlt u Hu). rewrite Hn in Hlt. simpl in Hlt. lia.
Qed.

(** X13. Over its whole life the component creates one URL per file it is
    given, each a new one, and hands every batch that is not empty to
    [onFiles], whole and in the order given; an empty batch reaches nobody. *)
Theorem one_url_per_file (batches : list (list File)) :
  created (lifetime batches) = seq 0 (length (concat batches))
  ∧ forwarded (lifetime batches) = filter (λ files, length files ≠ 0) batches.
Proof.
  unfold lifetime, unmount. fold (play mount batches).
  rewrite created_app, forwarded_app.
  destruct (effects_of_cleanup (previews (play mount batches))) as (-> & _ & ->).
  destruct (play_effects batches mount) as [-> ->].
  by rewrite !app_nil_r.
Qed.

(** X14. The URLs revoked during the life of the component are the first six
    of each batch, and no others: a URL beyond the sixth of its batch is
    never revoked. *)
Theorem revoked_first_six_of_batch (batches : list (list File)) (u : ObjectURL) :
  (u ∈ revoked (lifetime batches)
   ↔ ∃ us, us ∈ batch_urls 0 batches ∧ u ∈ take 6 us)
  ∧ ((∃ us, us ∈ batch_urls 0 batches ∧ u ∈ drop 6 us) →
     u ∉ revoked (lifetime batches)).
Proof.
  assert (Hiff : u ∈ revoked (lifetime batches)
                 ↔ ∃ us, us ∈ batch_urls 0 batches ∧ u ∈ take 6 us).
  { unfold lifetime. fold (play mount batches). rewrite revoked_play.
    split; [|by intros H; right; right].
    intros [H|[H|H]]; [by apply elem_of_nil in H .. | done]. }
  split; [done|].
  intros (us & Hus & Hd) (us' & Hus' & Ht)%Hiff.
  exact (batch_urls_apart batches 0 us us' u Hus Hus' Hd Ht).
Qed.

Lemma revoked_first_six_of_batch_witness :
  (∃ us, us ∈ batch_urls 0 [Samples.seven_photos] ∧ 6 ∈ drop 6 us)
  ∧ 6 ∉ revoked (lifetime [Samples.seven_photos]).
Proof.
  assert (H : ∃ us, us ∈ batch_urls 0 [Samples.seven_photos] ∧ 6 ∈ drop 6 us).
  { exists (seq 0 7). split; [apply list_elem_of_here | apply list_elem_of_here]. }
  split; [exact H|].
  exact (proj2 (revoked_first_six_of_batch [Samples.seven_photos] 6) H).
Defined.

End ImageUploadMore.

(* ================================================================== *)
(** * Further properties of the root component                       *)
(* ================================================================== *)

Section AppViews.
Import JS Api FilterPanel App.

Variable API_BASE : string.
Variable Number_toString : number → string.
Variable network : Request → Outcome Response.

(** X15. The health badge reads "API Online" exactly when the request for
    [/health] was answered with a 2xx status, whatever the body of the
    answer; after any other answer, or none, it reads "API Offline". *)
Theorem health_badge_follows_status :
  health_badge
    (health_settled (snd (getHealth API_BASE Number_toString network None)))
  = match network (plain_request API_BASE "GET" "/health") with
    | Resolved res => if ok res then Online else Offline
    | Rejected _ => Offline
    end.
Proof.
  change (snd (getHealth API_BASE Number_toString network None))
    with (match network (plain_request API_BASE "GET" "/health") with
          | Resolved res =>
              if ok res then Resolved (payload_of res)
              else Rejected (new_Error (api_error_message Number_toString res))
          | Rejected e => Rejected e
          end).
  destruct (network _) as [res|e]; [|done]. by destruct (ok res).
Qed.

Lemma handleFiles_resolved (files : list File) (res : SearchResponse)
    (r : string) (st : State) :
  files ≠ [] →
  isSearching (handleFiles files (Resolved res) r st) = false
  ∧ results (handleFiles files (Resolved res) r st) = default [] (Api.items res)
  ∧ total (handleFiles files (Resolved res) r st) = total_or_0 (Api.total res).
Proof.
  intros Hne. destruct files as [|f files]; [done|].
  unfold handleFiles. by destruct (no_items res).
Qed.

(** X16. "Clear Results" empties the grid and leaves the count: after a
    search that was answered, the line above the results still gives the
    total of that search, while the empty state stands below it. *)
Theorem clear_results_keeps_count (st : State) (files : list File)
    (res : SearchResponse) (r : string) :
  files ≠ [] →
  let st' := App.run st [FilesGiven files (Resolved res) r; ResultsCleared] in
  results_body st' = EmptyState
  ∧ results_header st'
    = (if truthy (Num (total_or_0 (Api.total res)))
       then Count (total_or_0 (Api.total res))
                  (num_gt (total_or_0 (Api.total res)) (Fin 1))
       else NoResultsYet).
Proof.
  intros Hne. cbn zeta. unfold App.run. cbn [foldl App.step].
  destruct (handleFiles_resolved files res r st Hne) as (Hs & Hr & Ht).
  unfold results_body, results_header, set_results.
  cbn [isSearching results total]. by rewrite Hs, Ht.
Qed.

Lemma clear_results_keeps_count_witness :
  [Samples.photo "a.png"] ≠ []
  ∧ results_header
      (App.run App.initial
         [FilesGiven [Samples.photo "a.png"]
            (Resolved {| Api.items := None; Api.total := Some (Fin 3);
                         Api.tookMs := None |}) "0.abc";
          ResultsCleared])
    = Count (Fin 3) true.
Proof.
  assert (H : [Samples.photo "a.png"] ≠ []) by done.
  split; [exact H|].
  exact (proj2 (clear_results_keeps_count App.initial _
                  {| Api.items := None; Api.total := Some (Fin 3);
                     Api.tookMs := None |} "0.abc" H)).
Defined.

(** *** The summary of the filters *)

Lemma concat_nonempty (sep : string) (parts : list string) :
  Forall (λ p, p ≠ "") parts → parts ≠ [] → String.concat sep parts ≠ "".
Proof.
  intros Hall Hne. destruct parts as [|p parts]; [done|].
  apply Forall_cons_1 in Hall as [Hp _].
  destruct p as [|a p]; [done|]. by destruct parts.
Qed.

Lemma summary_parts_nonempty (f : FilterState) :
  Forall (λ p, p ≠ "") (summary_parts f).
Proof.
  unfold summary_parts. repeat apply Forall_app_2.
  - destruct (truthy _); by repeat constructor.
  - destruct (category f) as [c|]; [|constructor].
    simpl. destruct (decide (c = "")) as [->|Hc].
    + constructor.
    + rewrite bool_decide_false by done. simpl. by repeat constructor.
  - destruct (inStock f); by repeat constructor.
  - destruct (bool_decide _); [|constructor]. repeat constructor.
    intros H. apply (f_equal String.length) in H. revert H.
    generalize (pretty (length (colors f))). intros s.
    induction s; simpl; [done | done].
  - destruct (bool_decide _); [|constructor]. repeat constructor.
    intros H. apply (f_equal String.length) in H. revert H.
    generalize (pretty (length (detectedTags f))). intros s.
    induction s; simpl; [done | done].
Qed.

(** X17. The line "Active: ..." is hidden exactly when the query is empty,
    no category is chosen, "in stock" is off and no color and no tag is
    selected; the price range and the sort order never bring it up. *)
Theorem active_line_hidden_iff (f : FilterState) :
  active_line f = None
  ↔ query f = "" ∧ (category f = None ∨ category f = Some "")
    ∧ inStock f = false ∧ colors f = [] ∧ detectedTags f = [].
Proof.
  assert (Hparts : summary_parts f = []
    ↔ query f = "" ∧ (category f = None ∨ category f = Some "")
      ∧ inStock f = false ∧ colors f = [] ∧ detectedTags f = []).
  { unfold summary_parts. simpl.
    destruct (query f) as [|a q], (category f) as [[|b c]|], (inStock f),
      (colors f) as [|x xs], (detectedTags f) as [|y ys]; simpl;
      split; try done; try (intros (? & [?|?] & ? & ? & ?); done);
      try (intros _; split_and!; auto; done). }
  rewrite <- Hparts. unfold active_line, filteredSummary. simpl.
  destruct (decide (summary_parts f = [])) as [He|Hne].
  - rewrite He. simpl. done.
  - rewrite bool_decide_false; [done|].
    by apply concat_nonempty; [apply summary_parts_nonempty|].
Qed.

End AppViews.

(* ================================================================== *)
(** * Properties of the product card                                 *)
(* ================================================================== *)

Section Cards.
Import ProductCard.
Local Open Scope nat_scope.

(** X18. The row of badges of a card accounts for every badge: the badges
    shown and the count behind the plus sign add up to the number given.
    The row shows the first four badges at most, the count appears exactly
    when there are more than four and is never zero, and a product without
    badges has no row. *)
Theorem badge_row_accounts_for_all (badges : option (list string)) :
  accounted (badge_row badges) = length (default [] badges)
  ∧ match badge_row badges with
    | Some row =>
        shown row = take 4 (default [] badges)
        ∧ 0 < length (shown row) ≤ 4
        ∧ (overflow row = None ↔ length (default [] badges) ≤ 4)
        ∧ overflow row ≠ Some 0
    | None => default [] badges = []
    end.
Proof.
  unfold badge_row. set (bs := default [] badges). clearbody bs.
  destruct (decide (0 < length bs)) as [Hpos|Hz].
  - rewrite bool_decide_true by done. cbn [accounted shown overflow].
    rewrite length_take.
    destruct (decide (4 < length bs)) as [Hmany|Hfew].
    + rewrite bool_decide_true by done. cbn [default]. unfold id.
      split_and!; [lia | done | lia | lia | | ].
      * split; [done | lia].
      * intros [= H]. lia.
    + rewrite bool_decide_false by done. cbn [default].
      split_and!; [lia | done | lia | lia | | done].
      split; [lia | done].
  - rewrite bool_decide_false by done. cbn [accounted].
    destruct bs; [done | simpl in Hz; lia].
Qed.

End Cards.

(* ================================================================== *)
(** * Properties of the theme class                                  *)
(* ================================================================== *)

Section ThemeClass.
Import Theme.

Lemma apply_in_sync (w : World) : in_sync (apply w) = true.
Proof. by apply bool_decide_eq_true. Qed.

Lemma shouldDark_other_item (w : World) (m : gmap string string) :
  m !! "theme" = localStorage w !! "theme" →
  shouldDark (set_storage m w) = shouldDark w.
Proof. intros H. unfold shouldDark. simpl. by rewrite H. Qed.

Lemma on_storage_in_sync (w : World) (m : gmap string string) (k : string) :
  (k ≠ "theme" → m !! "theme" = localStorage w !! "theme") →
  in_sync w = true →
  in_sync (on_storage (Some k) (set_storage m w)) = true.
Proof.
  intros Hm Hw. unfold on_storage.
  destruct (decide (k = "theme")) as [->|Hk].
  - rewrite bool_decide_true by done. apply apply_in_sync.
  - rewrite bool_decide_false by congruence.
    apply bool_decide_eq_true. rewrite shouldDark_other_item by auto.
    by apply bool_decide_eq_true in Hw.
Qed.

Lemma step_in_sync (w : World) (e : Event) :
  modern w = true → followed e = true → in_sync w = true →
  modern (step w e) = true ∧ in_sync (step w e) = true.
Proof.
  intros Hm He Hw. destruct e as [b|k v|k| |k v]; simpl in *.
  - case_bool_decide; [done|]. unfold listen. simpl. rewrite Hm.
    split; [done | apply apply_in_sync].
  - case_bool_decide; [done|]. unfold listen. simpl. rewrite Hm. split.
    + unfold on_storage. by case_bool_decide.
    + apply on_storage_in_sync; [|done]. intros Hk. by rewrite lookup_insert_ne.
  - case_bool_decide; [done|]. unfold listen. simpl. rewrite Hm. split.
    + unfold on_storage. by case_bool_decide.
    + apply on_storage_in_sync; [|done]. intros Hk. by rewrite lookup_delete_ne.
  - done.
  - split; [done|]. apply bool_decide_eq_true_1 in He.
    apply bool_decide_eq_true. rewrite shouldDark_other_item.
    + by apply bool_decide_eq_true in Hw.
    + by rewrite lookup_insert_ne.
Qed.

Lemma run_in_sync (es : list Event) (w : World) :
  modern w = true → in_sync w = true → Forall (λ e, followed e = true) es →
  in_sync (run w es) = true.
Proof.
  revert w. induction es as [|e es IH]; intros w Hm Hw Hes; [done|].
  apply Forall_cons_1 in Hes as [He Hes].
  destruct (step_in_sync w e Hm He Hw) as [Hm' Hw'].
  by apply (IH (step w e)).
Qed.

(** X19. Where the media query list has [addEventListener], the class
    [dark] of the root element agrees with the stored theme and the system
    theme after the script has run and after every change of the system
    theme, every write or removal of an item in another document, and
    every write in this document of an item other than [theme]. *)
Theorem theme_class_follows (w : World) (es : list Event) :
  modern w = true → Forall (λ e, followed e = true) es →
  in_sync (run (start w) es) = true.
Proof.
  intros Hm Hes. apply run_in_sync; [done | apply apply_in_sync | done].
Qed.

Lemma theme_class_follows_witness :
  in_sync
    (run (start {| localStorage := ∅; prefersDark := false; dark := false;
                   modern := true |})
       [ElsewhereSet "theme" "dark"; SystemTheme true;
        ElsewhereSet "lang" "en"; ElsewhereRemove "theme"; SystemTheme false])
  = true.
Proof.
  apply theme_class_follows; [reflexivity|].
  repeat constructor.
Defined.

Lemma step_legacy (w : World) (e : Event) :
  modern w = false → modern (step w e) = false ∧ dark (step w e) = dark w.
Proof.
  intros Hm. destruct e as [b|k v|k| |k v]; simpl;
    try case_bool_decide; unfold listen; simpl; by rewrite ?Hm.
Qed.

Lemma run_legacy (es : list Event) (w : World) :
  modern w = false → dark (run w es) = dark w.
Proof.
  revert w. induction es as [|e es IH]; intros w Hm; [done|].
  destruct (step_legacy w e Hm) as [Hm' Hd].
  simpl. fold (run (step w e) es). by rewrite IH.
Qed.

(** X20. Three ways the class is left behind.  Where the media query list
    has no [addEventListener], no listener is installed and the class stays
    what the first run made it, whatever happens.  When another document
    clears the storage, the event bears no key and the class is not
    recomputed: a stored theme [dark] with a light system theme leaves the
    class on.  And a write of [theme] in this document fires no event
    here. *)
Theorem theme_class_left_behind (w : World) :
  (modern w = false → ∀ es, dark (run (start w) es) = shouldDark w)
  ∧ (localStorage w !! "theme" = Some "dark" → prefersDark w = false →
       in_sync (step (start w) ElsewhereClear) = false)
  ∧ (shouldDark w = false →
       in_sync (step (start w) (HereSet "theme" "dark")) = false).
Proof.
  split_and!.
  - intros Hm es. by rewrite run_legacy.
  - intros Hls Hp. simpl. rewrite bool_decide_false.
    2:{ intros He. rewrite He in Hls. by rewrite lookup_empty in Hls. }
    unfold listen, on_storage. simpl.
    assert (Hd : shouldDark w = true) by (unfold shouldDark; by rewrite Hls).
    destruct (modern w); simpl; apply bool_decide_eq_false;
      unfold shouldDark; simpl; rewrite lookup_empty, Hd, Hp; done.
  - intros Hd. apply bool_decide_eq_false.
    change (dark (step (start w) (HereSet "theme" "dark"))) with (shouldDark w).
    assert (Hs : shouldDark (step (start w) (HereSet "theme" "dark")) = true).
    { unfold shouldDark. simpl. by rewrite lookup_insert_eq. }
    by rewrite Hs, Hd.
Qed.

Lemma theme_class_left_behind_witness :
  in_sync
    (step (start {| localStorage := {["theme" := "dark"]}; prefersDark := false;
                    dark := false; modern := true |}) ElsewhereClear) = false
  ∧ dark (run (start {| localStorage := ∅; prefersDark := false;
                        dark := false; modern := false |})
            [SystemTheme true]) = false
  ∧ in_sync
      (step (start {| localStorage := ∅; prefersDark := false;
                      dark := false; modern := true |})
            (HereSet "theme" "dark")) = false.
Proof.
  split_and!.
  - apply (proj1 (proj2 (theme_class_left_behind _))); reflexivity.
  - exact (proj1 (theme_class_left_behind
             {| localStorage := ∅; prefersDark := false;
                dark := false; modern := false |}) eq_refl [SystemTheme true]).
  - apply (proj2 (proj2 (theme_class_left_behind _))); reflexivity.
Defined.

End ThemeClass.

(* ================================================================== *)
(** * Further properties of the requests                             *)
(* ================================================================== *)

Section Headers.
Import JS Api.

Variable API_BASE : string.
Variable Number_toString : number → string.
Variable network : Request → Outcome Response.

(** X21. The request [apiRequest] sends, when its signal is not aborted:
    the method given or [GET], the path under the base URL, the body
    given, and every header the caller gave.  It bears the content type
    [application/json] exactly when the body is not a form and the caller
    gave no [Content-Type] of their own; otherwise the only content type
    is the caller's, if any. *)
Theorem apiRequest_headers (path : string) (opts : RequestOptions) :
  live (opt_signal opts) = true →
  ∃ req,
    fst (apiRequest API_BASE Number_toString network path opts) = [req]
    ∧ method req = default "GET" (opt_method opts)
    ∧ url req = API_BASE +:+ path
    ∧ body req = opt_body opts
    ∧ (∀ h, h ∈ default [] (opt_headers opts) → h ∈ headers req)
    ∧ (∀ v, ("Content-Type", v) ∈ headers req
            ↔ ("Content-Type", v) ∈ default [] (opt_headers opts)
              ∨ (v = "application/json"
                 ∧ is_FormData (opt_body opts) = false
                 ∧ "Content-Type" ∉ fst <$> default [] (opt_headers opts))).
Proof.
  intros Hlive. eexists. split_and!.
  - unfold apiRequest, fetch.
    destruct (opt_signal opts) as [[|reason]|]; [reflexivity|done|reflexivity].
  - done.
  - done.
  - done.
  - intros h Hh. cbn [headers]. unfold spread_headers.
    apply elem_of_app. by right.
  - intros v. cbn [headers]. unfold spread_headers.
    rewrite elem_of_app, list_elem_of_filter. cbn [fst].
    destruct (is_FormData (opt_body opts)).
    + split; [intros [[_ H]|H]; [by apply elem_of_nil in H | by left]|].
      intros [H|(_ & H & _)]; [by right | done].
    + split.
      * intros [[Hk H]|H]; [|by left]. right.
        apply list_elem_of_singleton in H. by injection H as <-.
      * intros [H|(-> & _ & Hk)]; [by right|]. left.
        split; [done | by apply list_elem_of_singleton].
Qed.

End Headers.

Lemma apiRequest_headers_witness :
  ∃ req,
    fst (Api.apiRequest Samples.base Api.integer_toString
           (Samples.always Samples.rejection) "/precompute"
           {| Api.opt_method := Some "POST"; Api.opt_headers := None;
              Api.opt_body := Some (Api.FormBody []);
              Api.opt_signal := None |}) = [req]
    ∧ Api.method req = "POST".
Proof.
  destruct (apiRequest_headers Samples.base Api.integer_toString
              (Samples.always Samples.rejection) "/precompute"
              {| Api.opt_method := Some "POST"; Api.opt_headers := None;
                 Api.opt_body := Some (Api.FormBody []);
                 Api.opt_signal := None |} eq_refl)
    as (req & Hsent & Hmethod & _).
  exists req. split; [exact Hsent | exact Hmethod].
Defined.

Section WellFormed.
Import JS Api.

Variable API_BASE : string.
Variable Number_toString : number → string.
Variable network : Request → Outcome Response.

Lemma unescaped_not_surrogate (u : N) :
  is_unescaped u = true →
  is_high_surrogate u = false ∧ is_low_surrogate u = false.
Proof.
  intros [Hu _]%unescaped_small. unfold is_high_surrogate, is_low_surrogate.
  split; apply andb_false_iff; left; apply N.leb_gt; lia.
Qed.

Lemma encodeURIComponent_defined_upto (n : nat) (us : list N) :
  (length us ≤ n)%nat →
  (is_Some (encodeURIComponent us) ↔ isWellFormed us = true).
Proof.
  revert us. induction n as [|n IH]; intros us Hlen.
  - destruct us; [|simpl in Hlen; lia]. simpl. split; [done | by eexists].
  - destruct us as [|u rest]; [simpl; split; [done | by eexists]|].
    simpl in Hlen. cbn [encodeURIComponent isWellFormed].
    destruct (is_unescaped u) eqn:Hun.
    + destruct (unescaped_not_surrogate u Hun) as [-> ->].
      rewrite fmap_is_Some. simpl. apply IH. lia.
    + destruct (is_high_surrogate u) eqn:Hhi.
      * destruct rest as [|lo rest']; [split; [by intros [? ?] | done]|].
        destruct (is_low_surrogate lo).
        -- rewrite fmap_is_Some. simpl. apply IH. simpl in Hlen. lia.
        -- split; [by intros [? ?] | done].
      * destruct (is_low_surrogate u).
        -- split; [by intros [? ?] | done].
        -- rewrite fmap_is_Some. simpl. apply IH. lia.
Qed.

(** X22. [getProduct] throws before any request is made exactly when the
    identifier holds a surrogate without its partner; for every other
    identifier it makes the call for [/products/] followed by the encoded
    identifier. *)
Theorem getProduct_throws_iff (id : list N) (signal : option AbortSignal) :
  (getProduct API_BASE Number_toString network id signal = None
   ↔ isWellFormed id = false)
  ∧ (isWellFormed id = true →
     ∃ enc, encodeURIComponent id = Some enc
            ∧ getProduct API_BASE Number_toString network id signal
              = Some (apiRequest API_BASE Number_toString network
                        ("/products/" +:+ enc)
                        {| opt_method := Some "GET"; opt_headers := None;
                           opt_body := None; opt_signal := signal |})).
Proof.
  pose proof (encodeURIComponent_defined_upto (length id) id (le_n _)) as Hd.
  unfold getProduct, product_path. split.
  - rewrite !fmap_None, <- not_true_iff_false, <- Hd.
    by rewrite eq_None_not_Some.
  - intros [enc Henc]%Hd. exists enc. split; [done|]. by rewrite Henc.
Qed.

End WellFormed.

Lemma getProduct_throws_iff_witness :
  ∃ enc, JS.encodeURIComponent (JS.units "a b") = Some enc ∧ enc = "a%20b".
Proof.
  destruct (proj2 (getProduct_throws_iff Samples.base Api.integer_toString
                     (Samples.always Samples.rejection) (JS.units "a b") None)
              eq_refl)
    as (enc & Henc & _).
  exists enc. split; [exact Henc|].
  vm_compute in Henc. by injection Henc as <-.
Defined.

Section Identifiers.
Import JS App.
Local Open Scope nat_scope.

Lemma length_substring (a n : nat) (s : string) :
  String.length (String.substring a n s) = n `min` (String.length s - a).
Proof.
  revert a n. induction s as [|c s IH]; intros a n.
  - destruct a, n; simpl; lia.
  - destruct a as [|a].
    + destruct n as [|n]; simpl; [done|]. rewrite IH. simpl. lia.
    + simpl. by rewrite IH.
Qed.

(** X23. An identifier made by [uid] is the prefix, an underscore and at
    most six characters of the draw: fewer than six when the rendering of
    the draw has fewer than eight characters. *)
Theorem uid_length (prefix random36 : string) :
  String.length (uid prefix random36)
  = String.length prefix + 1 + 6 `min` (String.length random36 - 2)
  ∧ String.length (token random36) ≤ 6.
Proof.
  unfold uid, token, slice. rewrite !length_append, length_substring.
  change (String.length "_") with 1. change (8 - 2) with 6. lia.
Qed.

End Identifiers.
